(** * Iterator snippets: a shallow embedding and its properties

    The repository holds four small Python classes implementing the iterator
    protocol ([__iter__] / [__next__]):

    - [Cycle]            (static/snippets/cycle.py)
    - [InfiniteCounter]  (static/snippets/infinite_counter.py)
    - [FileIterator]     (static/snippets/file_iterator.py)
    - [BinaryTree]       (public/snippets/treenode.py)

    Every method is embedded as a function in a state-and-exception monad:
    the state is the object the method mutates (together with the part of
    the interpreter's world it touches), the outcome is either a returned
    value or a raised Python exception.  A raise keeps the mutations made
    before it, as in Python. *)

From stdpp Require Import base option list gmap strings.
From Stdlib Require Import ZArith Lia Ascii.

Local Open Scope Z_scope.

(** ** Python outcomes *)

(** The exceptions that the modelled code and the builtins it calls can
    raise. *)
Inductive exn :=
  | StopIteration
  | IndexError
  | ZeroDivisionError
  | ValueError
  | AttributeError
  | FileNotFoundError.

#[global] Instance exn_eq_dec : EqDecision exn.
Proof. solve_decision. Defined.

Inductive outcome (A : Type) :=
  | Return (a : A)
  | Raise (e : exn).
Arguments Return {A} a.
Arguments Raise {A} e.

(** [StopIteration] is the protocol's "exhausted" signal; every other
    exception is a hard failure. *)
Definition is_exhausted {A} (o : outcome A) : bool :=
  match o with Raise StopIteration => true | _ => false end.

Definition is_hard_failure {A} (o : outcome A) : bool :=
  match o with
  | Return _ | Raise StopIteration => false
  | Raise _ => true
  end.

Definition is_value {A} (o : outcome A) : bool :=
  match o with Return _ => true | Raise _ => false end.

(** ** The monad of methods *)

Definition Py (S A : Type) : Type := S → outcome A * S.

Definition ret {S A} (a : A) : Py S A := λ s, (Return a, s).
Definition raise {S A} (e : exn) : Py S A := λ s, (Raise e, s).
Definition bind {S A B} (m : Py S A) (k : A → Py S B) : Py S B :=
  λ s, match m s with
       | (Return a, s') => k a s'
       | (Raise e, s') => (Raise e, s')
       end.
Definition get {S} : Py S S := λ s, (Return s, s).
Definition put {S} (s : S) : Py S unit := λ _, (Return tt, s).
(** Evaluation of a pure expression that may itself raise. *)
Definition lift {S A} (o : outcome A) : Py S A := λ s, (o, s).

Declare Scope py_scope.
Delimit Scope py_scope with py.
Notation "x <- m ;; k" := (bind m (λ x, k))
  (at level 100, m at next level, right associativity) : py_scope.
Notation "m ;;; k" := (bind m (λ _, k))
  (at level 100, right associativity) : py_scope.

(** [calls next n] is [n] successive [next(it)] calls on the same object,
    whatever each of them answers; the outcomes are listed in call order. *)
Fixpoint calls {S A} (next : Py S A) (n : nat) (s : S) : list (outcome A) * S :=
  match n with
  | O => ([], s)
  | S n' => let '(o, s') := next s in
            let '(os, s'') := calls next n' s' in
            (o :: os, s'')
  end.

(** Outcome of the call number [n] (counting from 0). *)
Definition nth_call {S A} (next : Py S A) (n : nat) (s : S) : outcome A :=
  fst (next (snd (calls next n s))).

(** ** Builtins on integers and lists *)

(** [a % b] on Python integers: floor modulo, [ZeroDivisionError] on 0. *)
Definition py_mod (a b : Z) : outcome Z :=
  if decide (b = 0) then Raise ZeroDivisionError else Return (a `mod` b).

(** [len(l)]. *)
Definition len {A} (l : list A) : Z := Z.of_nat (length l).

(** [l[i]] on a Python list: a negative index counts from the end, an index
    out of range raises [IndexError]. *)
Definition getitem {A} (l : list A) (i : Z) : outcome A :=
  let j := if decide (i < 0) then i + len l else i in
  if decide (0 ≤ j < len l) then
    match l !! Z.to_nat j with
    | Some x => Return x
    | None => Raise IndexError
    end
  else Raise IndexError.

(** Truth value of a list: [not data] holds exactly for the empty list. *)
Definition truthy {A} (l : list A) : bool :=
  match l with [] => false | _ :: _ => true end.

(** ** cycle.py *)

(** The backing collection is a Python list, which the producer reads and
    never changes; [index] is a Python [int]. *)
Module Cycle.
Section Cycle.
Context {A : Type}.

Record t := mk { data : list A; index : Z }.

Definition __init__ (data : list A) : t := {| data := data; index := 0 |}.

Definition __iter__ : Py t t := get.

Definition __next__ : Py t A :=
  (self <- get ;;
   if negb (truthy (data self)) then raise StopIteration
   else
     i <- lift (py_mod (index self) (len (data self))) ;;
     result <- lift (getitem (data self) i) ;;
     put {| data := data self; index := index self + 1 |} ;;;
     ret result)%py.
End Cycle.
Arguments t : clear implicits.
End Cycle.

(** ** infinite_counter.py *)

(** The counter holds a Python [int], which has no upper bound. *)
Module InfiniteCounter.
Record t := mk { current : Z }.

(** [start] defaults to 0. *)
Definition __init__ (start : option Z) : t :=
  {| current := default 0 start |}.

Definition __iter__ : Py t t := get.

Definition __next__ : Py t Z :=
  (self <- get ;;
   let current_value := current self in
   put {| current := current self + 1 |} ;;;
   ret current_value)%py.
End InfiniteCounter.

(** How a run of [next] calls ends. *)
Inductive ending :=
  | Exhausted            (* [StopIteration] was raised *)
  | Failed (e : exn)     (* another exception escaped *)
  | Pending.             (* the caller stopped asking *)

(** The loop of [for x in it: ...] once [it] is at hand: call [next(it)]
    until it raises, at most [fuel] times, and collect the values. *)
Fixpoint consume {S A} (next : Py S A) (fuel : nat) (s : S)
  : list A * ending * S :=
  match fuel with
  | O => ([], Pending, s)
  | S fuel' =>
      match next s with
      | (Return a, s') =>
          let '(xs, e, s'') := consume next fuel' s' in (a :: xs, e, s'')
      | (Raise StopIteration, s') => ([], Exhausted, s')
      | (Raise e, s') => ([], Failed e, s')
      end
  end.

(** ** Builtins on strings

    A [str] is modelled by a [string] whose characters are the code points
    below 256. *)

Definition LF : ascii := ascii_of_N 10.
Definition CR : ascii := ascii_of_N 13.

(** [str.isspace] on one character: the white space code points below 256
    are 9..13, 28..32, 133 and 160. *)
Definition isspace (c : ascii) : bool :=
  let n := N_of_ascii c in
  ((9 <=? n) && (n <=? 13) || (28 <=? n) && (n <=? 32)
   || (n =? 133) || (n =? 160))%N.

Fixpoint lstrip (s : string) : string :=
  match s with
  | EmptyString => EmptyString
  | String c s' => if isspace c then lstrip s' else s
  end.

Fixpoint rstrip (s : string) : string :=
  match s with
  | EmptyString => EmptyString
  | String c s' =>
      match rstrip s' with
      | EmptyString => if isspace c then EmptyString else String c EmptyString
      | r => String c r
      end
  end.

(** [s.strip()] without argument. *)
Definition strip (s : string) : string := rstrip (lstrip s).

(** Every character of [s] is white space. *)
Fixpoint all_space (s : string) : bool :=
  match s with
  | EmptyString => true
  | String c s' => isspace c && all_space s'
  end.

Definition starts_with_space (s : string) : bool :=
  match s with
  | EmptyString => false
  | String c _ => isspace c
  end.

Fixpoint ends_with_space (s : string) : bool :=
  match s with
  | EmptyString => false
  | String c EmptyString => isspace c
  | String _ s' => ends_with_space s'
  end.

(** [x] is [line] without its leading and trailing white space: what was
    cut on either side is white space only, and [x] neither starts nor ends
    with a white space character. *)
Definition stripped_of (line x : string) : Prop :=
  ∃ pre post,
    line = String.append pre (String.append x post)
    ∧ all_space pre = true ∧ all_space post = true
    ∧ starts_with_space x = false ∧ ends_with_space x = false.

(** ** Builtins on text files *)

(** Text mode with the default [newline=None]: on input, ["\r\n"] and a lone
    ["\r"] are read as ["\n"]. *)
Fixpoint universal_newlines (s : string) : string :=
  match s with
  | EmptyString => EmptyString
  | String c s' =>
      if decide (c = CR) then
        String LF match s' with
                  | String c' s'' =>
                      if decide (c' = LF) then universal_newlines s''
                      else universal_newlines s'
                  | EmptyString => EmptyString
                  end
      else String c (universal_newlines s')
  end.

(** [split_line s] cuts [s] after its first newline: the line read (with
    its newline, if any) and what remains. *)
Fixpoint split_line (s : string) : string * string :=
  match s with
  | EmptyString => (EmptyString, EmptyString)
  | String c s' =>
      if decide (c = LF) then (String LF EmptyString, s')
      else let '(l, r) := split_line s' in (String c l, r)
  end.

(** The text of a file made of the lines [ls]: a newline after each, after
    the last one only when [final_newline] is set. *)
Fixpoint text_of_lines (final_newline : bool) (ls : list string) : string :=
  match ls with
  | [] => EmptyString
  | [l] => if final_newline then String.append l (String LF EmptyString) else l
  | l :: ls' =>
      String.append l (String LF (text_of_lines final_newline ls'))
  end.

(** A file object: the text not read yet and the closed flag. *)
Record file_obj := FileObj { unread : string; closed : bool }.

(** File objects live in the heap and are named by their address. *)
Definition handle := nat.

(** Calls of the file builtins, oldest first. *)
Inductive event :=
  | EvOpen (path : string) (h : handle)
  | EvOpenFailed (path : string)
  | EvReadline (h : handle)
  | EvClose (h : handle).

#[global] Instance event_eq_dec : EqDecision event.
Proof. solve_decision. Defined.

(** The part of the world the file snippet touches: the file system (path to
    text), the heap of file objects and the log of builtin calls. *)
Record world := World {
  fs : gmap string string;
  files : list file_obj;
  trace : list event
}.

Definition boot (fs : gmap string string) : world :=
  {| fs := fs; files := []; trace := [] |}.

(** [open(path, 'r')]: a missing file raises [FileNotFoundError]; otherwise
    a fresh file object positioned at the start of the text. *)
Definition open (path : string) : Py world handle := λ w,
  match fs w !! path with
  | None =>
      (Raise FileNotFoundError,
       {| fs := fs w; files := files w;
          trace := trace w ++ [EvOpenFailed path] |})
  | Some text =>
      let h := length (files w) in
      (Return h,
       {| fs := fs w;
          files := files w ++ [FileObj (universal_newlines text) false];
          trace := trace w ++ [EvOpen path h] |})
  end.

(** [f.readline()]: [ValueError] on a closed file; otherwise the next line
    with its newline, or the empty string at end of file. *)
Definition readline (h : handle) : Py world string := λ w,
  let w' := {| fs := fs w; files := files w;
               trace := trace w ++ [EvReadline h] |} in
  match files w !! h with
  | None => (Raise ValueError, w')
  | Some f =>
      if closed f then (Raise ValueError, w')
      else
        let '(line, rest) := split_line (unread f) in
        (Return line,
         {| fs := fs w; files := <[h := FileObj rest false]> (files w);
            trace := trace w ++ [EvReadline h] |})
  end.

(** [f.close()]: sets the flag; closing twice is allowed. *)
Definition close (h : handle) : Py world unit := λ w,
  (Return tt,
   {| fs := fs w;
      files := alter (λ f, FileObj (unread f) true) h (files w);
      trace := trace w ++ [EvClose h] |}).

Definition count_events (p : event → bool) (w : world) : nat :=
  length (List.filter p (trace w)).

(** Number of [close] calls made on [h]. *)
Definition releases (h : handle) : world → nat :=
  count_events (λ e, bool_decide (e = EvClose h)).

(** Number of [close] calls, on whatever file object. *)
Definition closes : world → nat :=
  count_events (λ e, match e with EvClose _ => true | _ => false end).

(** Number of successful [open] calls. *)
Definition acquisitions : world → nat :=
  count_events (λ e, match e with EvOpen _ _ => true | _ => false end).

(** Number of [open] calls, successful or not. *)
Definition open_attempts : world → nat :=
  count_events (λ e, match e with
                     | EvOpen _ _ | EvOpenFailed _ => true
                     | _ => false
                     end).

(** Number of [readline] calls. *)
Definition reads : world → nat :=
  count_events (λ e, match e with EvReadline _ => true | _ => false end).

(** ** file_iterator.py *)

Module FileIterator.
(** [file] is [None] until [__iter__] has set the attribute. *)
Record t := mk { filepath : string; file : option handle }.

(** Methods run on the world and the object. *)
Definition state : Type := world * t.

Definition in_world {A} (m : Py world A) : Py state A := λ '(w, self),
  let '(o, w') := m w in (o, (w', self)).
Definition self_ : Py state t := λ '(w, self), (Return self, (w, self)).
Definition set_file (h : handle) : Py state unit := λ '(w, self),
  (Return tt, (w, {| filepath := filepath self; file := Some h |})).
(** Reading [self.file] before it was ever assigned. *)
Definition get_file : Py state handle := λ '(w, self),
  match file self with
  | Some h => (Return h, (w, self))
  | None => (Raise AttributeError, (w, self))
  end.

Definition __init__ (filepath : string) : t :=
  {| filepath := filepath; file := None |}.

Definition __iter__ : Py state t :=
  (self <- self_ ;;
   h <- in_world (open (filepath self)) ;;
   set_file h ;;;
   self_)%py.

Definition __next__ : Py state string :=
  (f <- get_file ;;
   line <- in_world (readline f) ;;
   if decide (line = EmptyString) then
     in_world (close f) ;;;
     raise StopIteration
   else ret (strip line))%py.

(** [for line in file_iter: ...], the loop cut after [fuel] rounds. *)
Definition for_loop (fuel : nat) (s : state) : list string * ending * state :=
  match __iter__ s with
  | (Return _, s') => consume __next__ fuel s'
  | (Raise e, s') => ([], Failed e, s')
  end.
End FileIterator.

(** ** treenode.py *)

Section Tree.
Context {K : Type}.

(** What a variable such as [node.left] holds: [None], or a [TreeNode]
    object with its three attributes. *)
Inductive node :=
  | NoNode
  | TreeNode (left : node) (val : K) (right : node).

(** [TreeNode(key)]: both children are [None]. *)
Definition TreeNode__init__ (key : K) : node := TreeNode NoNode key NoNode.

(** [n.left] and [n.right]; the assignments [n.left = l] and
    [n.right = r].  They are used on [TreeNode] objects only. *)
Definition get_left (n : node) : node :=
  match n with NoNode => NoNode | TreeNode l _ _ => l end.
Definition get_right (n : node) : node :=
  match n with NoNode => NoNode | TreeNode _ _ r => r end.
Definition set_left (l : node) (n : node) : node :=
  match n with NoNode => NoNode | TreeNode _ v r => TreeNode l v r end.
Definition set_right (r : node) (n : node) : node :=
  match n with NoNode => NoNode | TreeNode l v _ => TreeNode l v r end.

(** A generator object made by [in_order_traversal(node)]: where its frame
    is suspended, with the sub-generator a [yield from] is delegating to. *)
Inductive generator :=
  | Created (n : node)                     (* body not entered yet *)
  | InLeft (l : node) (v : K) (r : node) (sub : generator)
                                           (* in [yield from ...(node.left)] *)
  | AtVal (l : node) (v : K) (r : node)    (* at [yield node.val] *)
  | InRight (l : node) (v : K) (r : node) (sub : generator)
                                           (* in [yield from ...(node.right)] *)
  | Finished.                              (* body has returned *)

(** First [next] on a fresh generator for a [TreeNode]: the [if node:]
    test passes, the generator for the left child is made and asked
    first; if it has nothing, [node.val] is the value. *)
Fixpoint first_of (l : node) (v : K) (r : node) : K * generator :=
  match l with
  | NoNode => (v, AtVal l v r)
  | TreeNode ll lv lr =>
      let '(x, sub) := first_of ll lv lr in (x, InLeft l v r sub)
  end.

(** First [next] on a fresh generator: for [None] the [if] fails and the
    body returns at once. *)
Definition enter (n : node) : outcome K * generator :=
  match n with
  | NoNode => (Raise StopIteration, Finished)
  | TreeNode l v r => let '(x, g) := first_of l v r in (Return x, g)
  end.

(** [next(g)]: run the frame up to its next [yield]. *)
Fixpoint generator_next (g : generator) : outcome K * generator :=
  match g with
  | Created n => enter n
  | InLeft l v r sub =>
      match generator_next sub with
      | (Return x, sub') => (Return x, InLeft l v r sub')
      | (Raise StopIteration, _) => (Return v, AtVal l v r)
      | (Raise e, _) => (Raise e, Finished)
      end
  | AtVal l v r =>
      match enter r with
      | (Return x, sub) => (Return x, InRight l v r sub)
      | (Raise e, _) => (Raise e, Finished)
      end
  | InRight l v r sub =>
      match generator_next sub with
      | (Return x, sub') => (Return x, InRight l v r sub')
      | (Raise e, _) => (Raise e, Finished)
      end
  | Finished => (Raise StopIteration, Finished)
  end.

(** The in-order walk as the spec words it: left subtree, then the node's
    own value, then right subtree. *)
Fixpoint in_order_walk (n : node) : list K :=
  match n with
  | NoNode => []
  | TreeNode l v r => in_order_walk l ++ v :: in_order_walk r
  end.

Fixpoint node_count (n : node) : nat :=
  match n with
  | NoNode => O
  | TreeNode l _ r => S (node_count l + node_count r)
  end.

(** What a suspended generator still has to yield, read off its frame. *)
Fixpoint pending (g : generator) : list K :=
  match g with
  | Created n => in_order_walk n
  | InLeft l v r sub => pending sub ++ v :: in_order_walk r
  | AtVal l v r => in_order_walk r
  | InRight l v r sub => pending sub
  | Finished => []
  end.

(** What one [next] does to the values still to come: it returns the
    first and leaves the rest, or finds none and finishes. *)
Definition advances (before : list K) (step : outcome K * generator) : Prop :=
  match step with
  | (Return x, g') => before = x :: pending g'
  | (Raise StopIteration, g') => before = [] ∧ g' = Finished
  | (Raise _, _) => False
  end.
End Tree.
Arguments node : clear implicits.
Arguments generator : clear implicits.

Module BinaryTree.
Section BinaryTree.
Context {K : Type}.

Record t := mk { root : node K }.

Definition __init__ (root : node K) : t := {| root := root |}.

(** Calling a generator function runs none of its body. *)
Definition in_order_traversal (self : t) (n : node K) : generator K :=
  Created n.

Definition __iter__ (self : t) : generator K :=
  in_order_traversal self (root self).

(** The interpreter while one tree is in use: the tree object and the
    generator objects made from it so far, by address. *)
Record heap := Heap { tree : t; generators : list (generator K) }.

(** [iter(tree)]: a new generator object; its address is returned. *)
Definition heap_iter : Py heap nat := λ h,
  (Return (length (generators h)),
   {| tree := tree h; generators := generators h ++ [__iter__ (tree h)] |}).

(** [next] on the generator object at address [g].  Python code only
    holds addresses of objects that exist; the other case is there to
    make the function total. *)
Definition heap_next (g : nat) : Py heap K := λ h,
  match generators h !! g with
  | Some st =>
      let '(o, st') := generator_next st in
      (o, {| tree := tree h; generators := <[g := st']> (generators h) |})
  | None => (Raise ValueError, h)
  end.

Inductive op :=
  | Iter                 (* [iter(tree)] *)
  | Next (g : nat).      (* [next] on the generator at address [g] *)

Definition step (o : op) (h : heap) : heap :=
  match o with
  | Iter => snd (heap_iter h)
  | Next g => snd (heap_next g h)
  end.

Definition run (os : list op) (h : heap) : heap :=
  foldl (λ h o, step o h) h os.

(** [for value in tree: ...], the loop cut after [fuel] rounds. *)
Definition for_loop (fuel : nat) (self : t) : list K * ending * generator K :=
  consume generator_next fuel (__iter__ self).

(** The values one complete [for] loop over the tree receives: a tree
    with [n] nodes is exhausted by the call number [n + 1]. *)
Definition produced (self : t) : list K :=
  fst (fst (for_loop (S (node_count (root self))) self)).
End BinaryTree.
Arguments t : clear implicits.
Arguments heap : clear implicits.
End BinaryTree.

(** The tree built by the usage lines of treenode.py; an assignment through
    [root.left] updates the object [root] refers to. *)
Definition usage_tree : node Z :=
  let root := TreeNode__init__ 1 in
  let root := set_left (TreeNode__init__ 2) root in
  let root := set_right (TreeNode__init__ 3) root in
  let root := set_left (set_left (TreeNode__init__ 4) (get_left root)) root in
  let root := set_left (set_right (TreeNode__init__ 5) (get_left root)) root in
  root.


(** ** The usage loops *)

(** How a [for] loop with a [break] in its body ends. *)
Inductive stop :=
  | Break                (* the body ran [break] *)
  | End (e : ending).    (* the loop ended as a plain loop does *)

(** The loop of infinite_counter.py,
    [for num in counter: if num > limit: break; print(num)], cut after
    [fuel] rounds; the printed numbers are collected.  The source has 20
    for [limit]. *)
Fixpoint print_until_above (limit : Z) (fuel : nat) (s : InfiniteCounter.t)
  : list Z * stop * InfiniteCounter.t :=
  match fuel with
  | O => ([], End Pending, s)
  | S fuel' =>
      match InfiniteCounter.__next__ s with
      | (Return num, s') =>
          if decide (num > limit) then ([], Break, s')
          else
            let '(out, e, s'') := print_until_above limit fuel' s' in
            (num :: out, e, s'')
      | (Raise StopIteration, s') => ([], End Exhausted, s')
      | (Raise e, s') => ([], End (Failed e), s')
      end
  end.

(** [counter = InfiniteCounter(start)] followed by the loop, which first
    asks [iter(counter)]; the source has 10 for [start]. *)
Definition counter_usage (start limit : Z) (fuel : nat)
  : list Z * stop * InfiniteCounter.t :=
  print_until_above limit fuel
    (snd (InfiniteCounter.__iter__ (InfiniteCounter.__init__ (Some start)))).

(** ** Text files seen as lines *)

(** [s] holds no line terminator. *)
Fixpoint no_newline (s : string) : bool :=
  match s with
  | EmptyString => true
  | String c s' =>
      negb (bool_decide (c = LF)) && negb (bool_decide (c = CR))
      && no_newline s'
  end.

(** [ls] are the lines of the text [text_of_lines final_newline ls]: no
    line holds a terminator, and a text without final newline does not end
    with an empty line (that text would have one line less). *)
Definition lines_ok (final_newline : bool) (ls : list string) : bool :=
  forallb no_newline ls
  && (final_newline
      || match last ls with Some EmptyString => false | _ => true end).

(** [s] holds a newline character. *)
Fixpoint has_LF (s : string) : bool :=
  match s with
  | EmptyString => false
  | String c s' => bool_decide (c = LF) || has_LF s'
  end.

(** * Properties *)

(** ** The monad and the call drivers *)

Lemma calls_unfold {S A} (next : Py S A) n s :
  calls next (Datatypes.S n) s
  = (fst (next s) :: fst (calls next n (snd (next s))),
     snd (calls next n (snd (next s)))).
Proof.
  cbn [calls]. destruct (next s) as [o s']. cbn [fst snd].
  by destruct (calls next n s').
Qed.

Lemma calls_S {S A} (next : Py S A) n s :
  calls next (Datatypes.S n) s
  = (fst (calls next n s) ++ [nth_call next n s],
     snd (next (snd (calls next n s)))).
Proof.
  revert s. induction n as [|n IH]; intros s.
  - unfold nth_call. simpl. by destruct (next s).
  - rewrite calls_unfold, IH. unfold nth_call.
    by rewrite (calls_unfold next n s).
Qed.

Lemma calls_length {S A} (next : Py S A) n s :
  length (fst (calls next n s)) = n.
Proof.
  revert s. induction n as [|n IH]; intros s; [done|].
  simpl. destruct (next s) as [o s']. specialize (IH s').
  destruct (calls next n s'). simpl in *. by rewrite IH.
Qed.

Lemma calls_lookup {S A} (next : Py S A) n s :
  fst (calls next (Datatypes.S n) s) !! n = Some (nth_call next n s).
Proof.
  rewrite calls_S. cbn [fst].
  rewrite lookup_app_r; rewrite calls_length; [|lia].
  by rewrite Nat.sub_diag.
Qed.

(** ** Cycle *)

Section CycleFacts.
Context {A : Type}.
Implicit Types (C : list A) (s : Cycle.t A).

Lemma truthy_nonempty C : C ≠ [] → truthy C = true.
Proof. by destruct C. Qed.

Lemma getitem_in_range C (i : nat) x :
  C !! i = Some x → getitem C (Z.of_nat i) = Return x.
Proof.
  intros Hx. pose proof (lookup_lt_Some _ _ _ Hx) as Hlt.
  unfold getitem, len.
  destruct (decide (Z.of_nat i < 0)) as [?|_]; [lia|].
  destruct (decide (0 ≤ Z.of_nat i < Z.of_nat (length C))) as [_|?]; [|lia].
  by rewrite Nat2Z.id, Hx.
Qed.

(** One call on a non-empty collection whose cursor is at [k]. *)
Lemma next_at C (k : nat) :
  C ≠ [] →
  ∃ x, C !! (k mod length C)%nat = Some x
       ∧ Cycle.__next__ (Cycle.mk C (Z.of_nat k))
         = (Return x, Cycle.mk C (Z.of_nat (S k))).
Proof.
  intros HC.
  assert (length C ≠ 0%nat) as Hlen by (by destruct C).
  destruct (lookup_lt_is_Some_2 C (k mod length C)%nat) as [x Hx].
  { by apply Nat.mod_upper_bound. }
  exists x. split; [done|].
  unfold Cycle.__next__, bind, get, lift, put, ret, raise, py_mod, len.
  cbn [Cycle.data Cycle.index]. rewrite (truthy_nonempty C HC). cbn [negb].
  destruct (decide (Z.of_nat (length C) = 0)) as [?|_]; [lia|].
  rewrite <- Nat2Z.inj_mod, (getitem_in_range _ _ _ Hx).
  do 3 f_equal. lia.
Qed.

Lemma next_empty s :
  Cycle.data s = [] → Cycle.__next__ s = (Raise StopIteration, s).
Proof.
  intros H. unfold Cycle.__next__, bind, get, raise. by rewrite H.
Qed.

(** The cursor after [n] calls on a non-empty collection. *)
Lemma calls_state C (n : nat) :
  C ≠ [] →
  snd (calls Cycle.__next__ n (Cycle.__init__ C)) = Cycle.mk C (Z.of_nat n).
Proof.
  intros HC. induction n as [|n IH]; [done|].
  rewrite calls_S. cbn [snd]. rewrite IH.
  destruct (next_at C n HC) as (x & _ & ->). done.
Qed.

(** One call from any state: a value moves the cursor by one, a raise
    leaves it where it was, and the collection is never touched. *)
Lemma next_cursor s :
  match Cycle.__next__ s with
  | (Return _, s') =>
      Cycle.index s' = Cycle.index s + 1 ∧ Cycle.data s' = Cycle.data s
  | (Raise _, s') => s' = s
  end.
Proof.
  unfold Cycle.__next__, bind, get, lift, put, ret, raise.
  destruct (negb _); [done|].
  destruct (py_mod _ _); [|done].
  by destruct (getitem _ _).
Qed.

Lemma calls_cursor n s :
  Cycle.index s ≤ Cycle.index (snd (calls Cycle.__next__ n s)).
Proof.
  induction n as [|n IH]; [done|].
  rewrite calls_S. cbn [snd].
  pose proof (next_cursor (snd (calls Cycle.__next__ n s))) as H.
  destruct (Cycle.__next__ _) as [[x|e] s']; cbn [snd].
  - destruct H as [-> _]. lia.
  - by subst.
Qed.
End CycleFacts.

(** ** InfiniteCounter *)

Lemma counter_next s :
  InfiniteCounter.__next__ s
  = (Return (InfiniteCounter.current s),
     InfiniteCounter.mk (InfiniteCounter.current s + 1)).
Proof. done. Qed.

Lemma counter_calls_state (n : nat) s :
  snd (calls InfiniteCounter.__next__ n s)
  = InfiniteCounter.mk (InfiniteCounter.current s + Z.of_nat n).
Proof.
  induction n as [|n IH].
  - destruct s. simpl. f_equal. lia.
  - rewrite calls_S. cbn [snd]. rewrite IH, counter_next. cbn. f_equal. lia.
Qed.

Lemma counter_calls_cursor n s :
  InfiniteCounter.current s
  ≤ InfiniteCounter.current (snd (calls InfiniteCounter.__next__ n s)).
Proof. rewrite counter_calls_state. cbn. lia. Qed.

(** The usage lines of cycle.py and the output their comment announces. *)
Example cycle_usage :
  fst (calls Cycle.__next__ 10 (Cycle.__init__ [1; 2; 3]))
  = Return <$> [1; 2; 3; 1; 2; 3; 1; 2; 3; 1].
Proof. reflexivity. Qed.

(** C2: for a non-empty backing collection [C] and every [n], the call
    number [n] of [Cycle.__next__] (counting from 0) returns
    [C[n mod len(C)]], and none of the calls up to it signals exhaustion. *)
Theorem C2_cycle_nth_element {A} (C : list A) (n : nat) :
  C ≠ [] →
  ∃ x, C !! (n mod length C)%nat = Some x
       ∧ nth_call Cycle.__next__ n (Cycle.__init__ C) = Return x
       ∧ Forall (λ o, is_exhausted o = false)
           (fst (calls Cycle.__next__ (S n) (Cycle.__init__ C))).
Proof.
  intros HC.
  assert (∀ k, ∃ x, C !! (k mod length C)%nat = Some x
               ∧ nth_call Cycle.__next__ k (Cycle.__init__ C) = Return x)
    as Hnth.
  { intros k. destruct (next_at C k HC) as (x & Hx & Hnext).
    exists x. split; [done|].
    unfold nth_call. by rewrite (calls_state C k HC), Hnext. }
  destruct (Hnth n) as (x & Hx & Hn). exists x. split_and!; [done..|].
  clear x Hx Hn. induction n as [|n IH].
  - rewrite calls_S. cbn [fst calls app].
    destruct (Hnth 0%nat) as (x & _ & ->). by repeat constructor.
  - rewrite calls_S. cbn [fst]. apply Forall_app. split; [done|].
    destruct (Hnth (S n)) as (x & _ & ->). by repeat constructor.
Qed.

Lemma C2_cycle_nth_element_witness :
  [1; 2; 3] ≠ [] ∧
  ∃ x, [1; 2; 3] !! (4 mod length [1; 2; 3])%nat = Some x
       ∧ nth_call Cycle.__next__ 4 (Cycle.__init__ [1; 2; 3]) = Return x
       ∧ Forall (λ o, is_exhausted o = false)
           (fst (calls Cycle.__next__ 5 (Cycle.__init__ [1; 2; 3]))).
Proof. split; [done | apply (C2_cycle_nth_element [1; 2; 3] 4); done]. Defined.

(** C3: over an empty backing collection the very first [__next__] raises
    [StopIteration], the exhaustion signal and not a hard failure. *)
Theorem C3_cycle_empty_exhausted {A} :
  let first := fst (Cycle.__next__ (Cycle.__init__ (@nil A))) in
  first = Raise StopIteration
  ∧ is_exhausted first = true
  ∧ is_hard_failure first = false
  ∧ nth_call Cycle.__next__ 0 (Cycle.__init__ (@nil A)) = first.
Proof. done. Qed.

(** C4: the counter started at [s] returns [s + k] at the call number [k]
    (counting from 0), so every call returns a value and none signals
    exhaustion; without argument it starts at 0. *)
Theorem C4_counter_kth_value (s : Z) (k : nat) :
  nth_call InfiniteCounter.__next__ k (InfiniteCounter.__init__ (Some s))
  = Return (s + Z.of_nat k)
  ∧ nth_call InfiniteCounter.__next__ k (InfiniteCounter.__init__ None)
    = Return (Z.of_nat k)
  ∧ (∀ st, is_exhausted (fst (InfiniteCounter.__next__ st)) = false)
  ∧ Forall (λ o, is_exhausted o = false)
      (fst (calls InfiniteCounter.__next__ (S k)
              (InfiniteCounter.__init__ (Some s)))).
Proof.
  split_and!.
  - unfold nth_call. by rewrite counter_calls_state, counter_next.
  - unfold nth_call. by rewrite counter_calls_state, counter_next.
  - done.
  - generalize (InfiniteCounter.__init__ (Some s)), (S k). intros st n.
    induction n as [|n IH]; [constructor|].
    rewrite calls_S. cbn [fst]. apply Forall_app. split; [done|].
    unfold nth_call. rewrite counter_next. by repeat constructor.
Qed.

(** C9: the cursor of the in-memory producers only moves forward.  A
    [Cycle.__next__] that returns a value adds one to [index] and one that
    raises leaves the object as it was; [InfiniteCounter.__next__] adds one
    to [current]; [__iter__] changes nothing; so over any number of calls
    the cursor never goes down, and the producer does it all itself. *)
Theorem C9_cursor_moves_forward :
  (∀ A (s : Cycle.t A),
     match Cycle.__next__ s with
     | (Return _, s') => Cycle.index s < Cycle.index s'
     | (Raise _, s') => Cycle.index s' = Cycle.index s
     end)
  ∧ (∀ A (s : Cycle.t A) n,
       Cycle.index s ≤ Cycle.index (snd (calls Cycle.__next__ n s)))
  ∧ (∀ A (s : Cycle.t A), snd (Cycle.__iter__ s) = s)
  ∧ (∀ s, is_value (fst (InfiniteCounter.__next__ s)) = true
          ∧ InfiniteCounter.current s
            < InfiniteCounter.current (snd (InfiniteCounter.__next__ s)))
  ∧ (∀ s n,
       InfiniteCounter.current s
       ≤ InfiniteCounter.current (snd (calls InfiniteCounter.__next__ n s)))
  ∧ (∀ s, snd (InfiniteCounter.__iter__ s) = s).
Proof.
  split_and!.
  - intros A s. pose proof (next_cursor s) as H.
    destruct (Cycle.__next__ s) as [[x|e] s'].
    + destruct H as [-> _]. lia.
    + by subst.
  - intros A s n. apply calls_cursor.
  - done.
  - intros s. rewrite counter_next. cbn. split; [done|lia].
  - intros s n. apply counter_calls_cursor.
  - done.
Qed.

(** ** Strings *)

Lemma append_nil (t : string) : String.append EmptyString t = t.
Proof. reflexivity. Qed.

Lemma append_cons c (s t : string) :
  String.append (String c s) t = String c (String.append s t).
Proof. reflexivity. Qed.

Lemma lstrip_spec (s : string) :
  ∃ pre, s = String.append pre (lstrip s)
         ∧ all_space pre = true ∧ starts_with_space (lstrip s) = false.
Proof.
  induction s as [|c s (pre & Hs & Hpre & Hhd)].
  - by exists EmptyString.
  - simpl. destruct (isspace c) eqn:Hc.
    + exists (String c pre). rewrite append_cons, <- Hs. simpl.
      by rewrite Hc, Hpre.
    + exists EmptyString. rewrite append_nil. simpl. by rewrite Hc.
Qed.

Lemma rstrip_spec (s : string) :
  ∃ post, s = String.append (rstrip s) post
          ∧ all_space post = true ∧ ends_with_space (rstrip s) = false.
Proof.
  induction s as [|c s (post & Hs & Hpost & Hlast)].
  - by exists EmptyString.
  - simpl. destruct (rstrip s) as [|d r] eqn:Hr.
    + rewrite append_nil in Hs. subst post. destruct (isspace c) eqn:Hc.
      * exists (String c s). rewrite append_nil. simpl. by rewrite Hc, Hpost.
      * exists s. rewrite append_cons, append_nil. simpl. by rewrite Hc.
    + exists post. rewrite append_cons, <- Hs. done.
Qed.

Lemma rstrip_start (s : string) :
  starts_with_space s = false → starts_with_space (rstrip s) = false.
Proof.
  destruct s as [|c s]; [done|]. simpl. intros Hc.
  destruct (rstrip s); [|done]. by rewrite Hc.
Qed.

Lemma strip_spec (line : string) : stripped_of line (strip line).
Proof.
  destruct (lstrip_spec line) as (pre & Hl & Hpre & Hhd).
  destruct (rstrip_spec (lstrip line)) as (post & Hr & Hpost & Hlast).
  exists pre, post. unfold strip. rewrite <- Hr.
  split_and!; [done..| by apply rstrip_start |done].
Qed.

Lemma lstrip_all_space (s : string) : all_space s = true → lstrip s = EmptyString.
Proof.
  induction s as [|c s IH]; [done|]. simpl.
  destruct (isspace c); [|done]. apply IH.
Qed.

Lemma strip_all_space (s : string) : all_space s = true → strip s = EmptyString.
Proof. intros H. unfold strip. by rewrite lstrip_all_space. Qed.

(** [readline] answers the empty string exactly at end of file. *)
Lemma split_line_empty (u : string) :
  fst (split_line u) = EmptyString ↔ u = EmptyString.
Proof.
  destruct u as [|c u]; [done|]. simpl.
  destruct (decide (c = LF)); [done|]. by destruct (split_line u).
Qed.

Lemma split_line_append (u : string) :
  String.append (fst (split_line u)) (snd (split_line u)) = u.
Proof.
  induction u as [|c u IH]; [done|]. simpl.
  destruct (decide (c = LF)) as [->|]; [done|].
  destruct (split_line u). simpl in *. by rewrite append_cons, IH.
Qed.

(** ** FileIterator *)

Section FileIteratorFacts.
Import FileIterator.
Implicit Types (w : world) (self : t) (h : handle) (u : string).

Lemma count_events_snoc p fsys fl tr e :
  count_events p (World fsys fl (tr ++ [e]))
  = (count_events p (World fsys fl tr) + if p e then 1 else 0)%nat.
Proof.
  unfold count_events. cbn [trace].
  rewrite List.filter_app, length_app. cbn [List.filter].
  by destruct (p e).
Qed.

(** [__next__] before any [__iter__]: the attribute does not exist. *)
Lemma next_unset w self :
  file self = None → __next__ (w, self) = (Raise AttributeError, (w, self)).
Proof. intros H. unfold __next__, bind, get_file. by rewrite H. Qed.

(** [__next__] on an open file with text left. *)
Lemma next_line w self h u :
  file self = Some h → files w !! h = Some (FileObj u false) →
  u ≠ EmptyString →
  __next__ (w, self)
  = (Return (strip (fst (split_line u))),
     (World (fs w) (<[h := FileObj (snd (split_line u)) false]> (files w))
        (trace w ++ [EvReadline h]), self)).
Proof.
  intros Hf Hh Hu.
  unfold __next__, bind, get_file, in_world, readline, ret.
  rewrite Hf, Hh. cbn [closed unread].
  pose proof (split_line_empty u) as Hempty.
  destruct (split_line u) as [line rest]. cbn [fst snd] in *.
  destruct (decide (line = EmptyString)) as [Hl|_]; [|done].
  by apply Hempty in Hl.
Qed.

(** [__next__] on an open file at its end: the file is closed and
    [StopIteration] raised. *)
Lemma next_eof w self h :
  file self = Some h → files w !! h = Some (FileObj EmptyString false) →
  __next__ (w, self)
  = (Raise StopIteration,
     (World (fs w) (<[h := FileObj EmptyString true]> (files w))
        ((trace w ++ [EvReadline h]) ++ [EvClose h]), self)).
Proof.
  intros Hf Hh.
  unfold __next__, bind, get_file, in_world, readline, close, raise.
  rewrite Hf, Hh. cbn [closed unread split_line].
  destruct (decide (EmptyString = EmptyString)) as [_|?]; [|done].
  cbn. do 3 f_equal.
  apply list_eq. intros i. rewrite list_lookup_alter.
  case_decide as Hi.
  - subst i. rewrite !list_lookup_insert_eq by (by eapply lookup_lt_Some).
    done.
  - rewrite !list_lookup_insert_ne by done. done.
Qed.

(** [__next__] on a closed file: [readline] refuses. *)
Lemma next_closed w self h u :
  file self = Some h → files w !! h = Some (FileObj u true) →
  __next__ (w, self)
  = (Raise ValueError,
     (World (fs w) (files w) (trace w ++ [EvReadline h]), self)).
Proof.
  intros Hf Hh. unfold __next__, bind, get_file, in_world, readline.
  by rewrite Hf, Hh.
Qed.

(** When [__next__] raises [StopIteration], it has just closed the file
    that [self.file] names. *)
Lemma next_exhausted_inv w self :
  fst (__next__ (w, self)) = Raise StopIteration →
  ∃ h, file self = Some h
       ∧ files w !! h = Some (FileObj EmptyString false)
       ∧ fst (readline h w) = Return EmptyString.
Proof.
  destruct (file self) as [h|] eqn:Hf; [|by rewrite next_unset].
  destruct (files w !! h) as [[u [|]]|] eqn:Hh.
  - by erewrite next_closed.
  - destruct (decide (u = EmptyString)) as [->|Hu].
    + intros _. exists h. split_and!; [done..|].
      unfold readline. by rewrite Hh.
    + by erewrite next_line.
  - unfold __next__, bind, get_file, in_world, readline. by rewrite Hf, Hh.
Qed.

(** Once the file is closed, every further [__next__] finds it closed. *)
Lemma calls_closed n w self h u :
  file self = Some h → files w !! h = Some (FileObj u true) →
  let st := snd (calls __next__ n (w, self)) in
  snd st = self ∧ files (fst st) = files w ∧ fs (fst st) = fs w
  ∧ acquisitions (fst st) = acquisitions w
  ∧ releases h (fst st) = releases h w
  ∧ nth_call __next__ n (w, self) = Raise ValueError.
Proof.
  intros Hf Hh. unfold nth_call. induction n as [|n IH].
  - cbn [calls snd fst]. by erewrite next_closed.
  - rewrite calls_S. cbn [snd].
    destruct (snd (calls __next__ n (w, self))) as [w' self'].
    cbn [fst snd] in *. destruct IH as (-> & Hfl & Hfs & Hacq & Hrel & _).
    rewrite (next_closed w' self h u) by (by rewrite ?Hfl).
    cbn [fst snd]. unfold acquisitions, releases in *.
    split_and!; [done..| | |].
    + by rewrite count_events_snoc, Nat.add_0_r.
    + by rewrite count_events_snoc, Nat.add_0_r.
    + rewrite (next_closed _ self h u); [done..|]. cbn [files]. congruence.
Qed.

(** After [StopIteration], the object is in the closed case. *)
Lemma exhausted_then_closed w self :
  fst (__next__ (w, self)) = Raise StopIteration →
  ∃ h, file (snd (snd (__next__ (w, self)))) = Some h
       ∧ snd (snd (__next__ (w, self))) = self
       ∧ files (fst (snd (__next__ (w, self)))) !! h
         = Some (FileObj EmptyString true)
       ∧ acquisitions (fst (snd (__next__ (w, self)))) = acquisitions w.
Proof.
  intros (h & Hf & Hh & _)%next_exhausted_inv. exists h.
  rewrite (next_eof w self h Hf Hh). cbn [fst snd files].
  split_and!; [done..| |].
  - rewrite list_lookup_insert_eq; [done|]. by eapply lookup_lt_Some.
  - unfold acquisitions. by rewrite !count_events_snoc, !Nat.add_0_r.
Qed.

(** What the code does after exhaustion: each further call is refused by
    [readline] with [ValueError]; the file is not opened again. *)
Lemma next_after_exhaustion w self n :
  fst (__next__ (w, self)) = Raise StopIteration →
  nth_call __next__ n (snd (__next__ (w, self))) = Raise ValueError
  ∧ acquisitions (fst (snd (calls __next__ n (snd (__next__ (w, self))))))
    = acquisitions w.
Proof.
  intros (h & Hf & Hself & Hh & Hacq)%exhausted_then_closed.
  destruct (__next__ (w, self)) as [o [w' self']]. cbn [fst snd] in *.
  destruct (calls_closed n w' self' h EmptyString Hf Hh)
    as (_ & _ & _ & Hacq' & _ & Hnth).
  split; [done|]. by rewrite Hacq'.
Qed.
End FileIteratorFacts.

(** C1 (the code departs from it): after [StopIteration] the file object is
    closed, and the next [__next__] calls [readline] on it, which raises
    [ValueError].  On a file holding the single line "a": the first call
    returns it, the second signals exhaustion, the third and the fourth are
    hard failures.  The file is not opened again. *)
Theorem C1_next_after_exhaustion_raises_ValueError :
  let text := text_of_lines true ["a"%string] in
  let s1 := snd (FileIterator.__iter__
                   (boot {[ "example.txt"%string := text ]},
                    FileIterator.__init__ "example.txt")) in
  fst (calls FileIterator.__next__ 4 s1)
  = [Return "a"%string; Raise StopIteration; Raise ValueError; Raise ValueError]
  ∧ is_exhausted (nth_call FileIterator.__next__ 1 s1) = true
  ∧ is_exhausted (nth_call FileIterator.__next__ 2 s1) = false
  ∧ is_hard_failure (nth_call FileIterator.__next__ 2 s1) = true
  ∧ acquisitions (fst (snd (calls FileIterator.__next__ 4 s1))) = 1%nat.
Proof. vm_compute. done. Qed.

(** C6: over a file whose lines are "a", "b", "c" (with or without a final
    newline), [__iter__] succeeds, the first three [__next__] calls return
    "a", "b", "c" in that order and the fourth raises [StopIteration]; no
    [close] has happened after three calls and exactly one after four, on
    the file object that was opened, which is then closed. *)
Theorem C6_three_lines_then_exhausted
    (fsys : gmap string string) (path : string) (final_newline : bool) :
  fsys !! path
  = Some (text_of_lines final_newline ["a"; "b"; "c"]%string) →
  let s0 := (boot fsys, FileIterator.__init__ path) in
  let s1 := snd (FileIterator.__iter__ s0) in
  let after n := fst (snd (calls FileIterator.__next__ n s1)) in
  fst (FileIterator.__iter__ s0) = Return (FileIterator.mk path (Some 0%nat))
  ∧ fst (calls FileIterator.__next__ 4 s1)
    = [Return "a"%string; Return "b"%string; Return "c"%string;
       Raise StopIteration]
  ∧ closes (after 3%nat) = 0%nat
  ∧ closes (after 4%nat) = 1%nat
  ∧ releases 0%nat (after 4%nat) = 1%nat
  ∧ acquisitions (after 4%nat) = 1%nat
  ∧ files (after 3%nat) !! 0%nat = Some (FileObj EmptyString false)
  ∧ files (after 4%nat) = [FileObj EmptyString true].
Proof.
  intros Hfile s0 s1 after.
  assert (FileIterator.__iter__ s0
          = (Return (FileIterator.mk path (Some 0%nat)),
             (World fsys
                [FileObj (universal_newlines
                            (text_of_lines final_newline ["a"; "b"; "c"]%string))
                   false]
                [EvOpen path 0%nat],
              FileIterator.mk path (Some 0%nat)))) as Hiter.
  { unfold s0, FileIterator.__iter__, bind, FileIterator.self_,
      FileIterator.in_world, open, FileIterator.set_file, boot.
    cbn [fs files trace FileIterator.filepath FileIterator.__init__].
    by rewrite Hfile. }
  subst after s1. rewrite Hiter. cbn [fst snd].
  destruct final_newline; vm_compute; done.
Qed.

Lemma C6_three_lines_then_exhausted_witness :
  let text := text_of_lines true ["a"; "b"; "c"]%string in
  let fsys : gmap string string := {[ "example.txt"%string := text ]} in
  let s1 := snd (FileIterator.__iter__
                   (boot fsys, FileIterator.__init__ "example.txt")) in
  fsys !! "example.txt"%string = Some text
  ∧ fst (calls FileIterator.__next__ 4 s1)
    = [Return "a"%string; Return "b"%string; Return "c"%string;
       Raise StopIteration].
Proof.
  split; [reflexivity|].
  apply (C6_three_lines_then_exhausted
           {[ "example.txt"%string := text_of_lines true ["a"; "b"; "c"]%string ]}
           "example.txt" true).
  reflexivity.
Defined.

(** C7: when the file does not exist, [__iter__] itself raises
    [FileNotFoundError], a hard failure: [open] was tried once, no file
    object exists, [self.file] is not set, and a [for] loop over the object
    ends there without a single element and without any [readline]. *)
Theorem C7_missing_file_fails_at_iter (w : world) (self : FileIterator.t)
    (fuel : nat) :
  fs w !! FileIterator.filepath self = None →
  let w' := World (fs w) (files w)
              (trace w ++ [EvOpenFailed (FileIterator.filepath self)]) in
  FileIterator.__iter__ (w, self) = (Raise FileNotFoundError, (w', self))
  ∧ is_hard_failure (fst (FileIterator.__iter__ (w, self))) = true
  ∧ FileIterator.for_loop fuel (w, self)
    = ([], Failed FileNotFoundError, (w', self))
  ∧ open_attempts w' = S (open_attempts w)
  ∧ acquisitions w' = acquisitions w
  ∧ reads w' = reads w.
Proof.
  intros Hmissing w'.
  assert (FileIterator.__iter__ (w, self)
          = (Raise FileNotFoundError, (w', self))) as Hiter.
  { unfold FileIterator.__iter__, bind, FileIterator.self_,
      FileIterator.in_world, open.
    by rewrite Hmissing. }
  unfold FileIterator.for_loop. rewrite Hiter.
  unfold open_attempts, acquisitions, reads, w'.
  rewrite !count_events_snoc. cbn beta iota.
  unfold count_events. cbn [trace].
  split_and!; [done..|lia|lia|lia].
Qed.

Lemma C7_missing_file_fails_at_iter_witness :
  let w := boot ∅ in
  let self := FileIterator.__init__ "example.txt" in
  fs w !! FileIterator.filepath self = None
  ∧ FileIterator.for_loop 5 (w, self)
    = ([], Failed FileNotFoundError,
       (World ∅ [] [EvOpenFailed "example.txt"], self)).
Proof.
  split; [reflexivity|].
  apply (C7_missing_file_fails_at_iter (boot ∅)
           (FileIterator.__init__ "example.txt") 5).
  reflexivity.
Defined.

(** C10: whatever [__next__] returns is [strip()] of the line [readline]
    gave, a non-empty line, and that is the line without its leading and
    trailing white space; [StopIteration] comes only from [readline]
    answering the empty string, which an open file does only at its end.
    So a line of white space only is returned as the empty string. *)
Theorem C10_next_returns_stripped_line (w : world) (self : FileIterator.t) :
  match fst (FileIterator.__next__ (w, self)) with
  | Return x =>
      ∃ h line,
        FileIterator.file self = Some h
        ∧ fst (readline h w) = Return line
        ∧ line ≠ EmptyString
        ∧ x = strip line ∧ stripped_of line x
  | Raise StopIteration =>
      ∃ h u,
        FileIterator.file self = Some h
        ∧ fst (readline h w) = Return EmptyString
        ∧ files w !! h = Some (FileObj u false) ∧ u = EmptyString
  | Raise _ => True
  end
  ∧ ∀ h line,
      FileIterator.file self = Some h →
      fst (readline h w) = Return line →
      line ≠ EmptyString → all_space line = true →
      fst (FileIterator.__next__ (w, self)) = Return EmptyString.
Proof.
  split.
  - destruct (fst (FileIterator.__next__ (w, self))) as [x|e] eqn:Hnext.
    + destruct (FileIterator.file self) as [h|] eqn:Hf;
        [|by rewrite next_unset in Hnext].
      destruct (files w !! h) as [[u [|]]|] eqn:Hh.
      * by erewrite next_closed in Hnext.
      * destruct (decide (u = EmptyString)) as [->|Hu];
          [by erewrite next_eof in Hnext|].
        rewrite (next_line w self h u) in Hnext by done.
        injection Hnext as <-. exists h, (fst (split_line u)).
        split_and!; [done| | |done|apply strip_spec].
        -- unfold readline. rewrite Hh. cbn [closed unread].
           by destruct (split_line u).
        -- by rewrite split_line_empty.
      * unfold FileIterator.__next__, bind, FileIterator.get_file,
          FileIterator.in_world, readline in Hnext.
        by rewrite Hf, Hh in Hnext.
    + destruct e; try done.
      destruct (next_exhausted_inv w self) as (h & Hf & Hh & Hr);
        [by rewrite Hnext|].
      by exists h, EmptyString.
  - intros h line Hf Hread Hline Hspace.
    unfold FileIterator.__next__, bind, FileIterator.get_file,
      FileIterator.in_world, ret.
    rewrite Hf. destruct (readline h w) as [o w'].
    cbn [fst] in Hread. subst o.
    destruct (decide (line = EmptyString)); [done|].
    cbn [fst]. by rewrite strip_all_space.
Qed.

Lemma C10_next_returns_stripped_line_witness :
  let blank := String " " (String (ascii_of_N 9) (String LF EmptyString)) in
  let w := World ∅ [FileObj (String.append blank "x") false] [] in
  let self := FileIterator.mk "example.txt" (Some 0%nat) in
  (FileIterator.file self = Some 0%nat
   ∧ fst (readline 0%nat w) = Return blank
   ∧ blank ≠ EmptyString ∧ all_space blank = true)
  ∧ fst (FileIterator.__next__ (w, self)) = Return EmptyString.
Proof.
  split; [by vm_compute|].
  refine (proj2 (C10_next_returns_stripped_line _ _) 0%nat _ _ _ _ _);
    by vm_compute.
Defined.

(** ** BinaryTree *)

Section TreeFacts.
Context {K : Type}.
Implicit Types (n l r : node K) (g sub : generator K) (v x : K).

Lemma in_order_walk_length n : length (in_order_walk n) = node_count n.
Proof.
  induction n as [|l IHl v r IHr]; [done|].
  simpl. rewrite length_app. simpl. lia.
Qed.

Lemma first_of_pending l v r :
  in_order_walk l ++ v :: in_order_walk r
  = fst (first_of l v r) :: pending (snd (first_of l v r)).
Proof.
  revert v r. induction l as [|ll IHll lv lr _]; intros v r; [done|].
  cbn [first_of in_order_walk]. specialize (IHll lv lr).
  destruct (first_of ll lv lr) as [x sub]. cbn [fst snd pending] in *.
  by rewrite IHll.
Qed.

Lemma enter_pending n : advances (in_order_walk n) (enter n).
Proof.
  destruct n as [|l v r]; [done|]. unfold enter.
  pose proof (first_of_pending l v r) as H.
  by destruct (first_of l v r).
Qed.

Lemma next_pending g : advances (pending g) (generator_next g).
Proof.
  induction g as [n|l v r sub IH|l v r|l v r sub IH|]; cbn [generator_next pending].
  - apply enter_pending.
  - destruct (generator_next sub) as [[x|[]] sub']; cbn in *; try done.
    + by rewrite IH.
    + by destruct IH as [-> _].
  - pose proof (enter_pending r) as H.
    destruct (enter r) as [[x|[]] sub]; cbn in *; try done.
    by destruct H.
  - destruct (generator_next sub) as [[x|[]] sub']; cbn in *; try done.
    by destruct IH.
  - done.
Qed.

(** Enough calls walk the generator to its end. *)
Lemma consume_pending fuel g :
  (length (pending g) < fuel)%nat →
  consume generator_next fuel g = (pending g, Exhausted, Finished).
Proof.
  revert g. induction fuel as [|fuel IH]; intros g Hlen; [lia|].
  cbn [consume]. pose proof (next_pending g) as H.
  destruct (generator_next g) as [[x|[]] g']; cbn in H; try done.
  - rewrite H in Hlen |- *. cbn [length] in Hlen.
    rewrite IH by lia. done.
  - by destruct H as [-> ->].
Qed.

Lemma for_loop_complete (self : BinaryTree.t K) extra :
  BinaryTree.for_loop (S (node_count (BinaryTree.root self)) + extra) self
  = (in_order_walk (BinaryTree.root self), Exhausted, Finished).
Proof.
  unfold BinaryTree.for_loop. rewrite consume_pending; [done|].
  cbn [BinaryTree.__iter__ BinaryTree.in_order_traversal pending].
  rewrite in_order_walk_length. lia.
Qed.

Lemma produced_walk (self : BinaryTree.t K) :
  BinaryTree.produced self = in_order_walk (BinaryTree.root self).
Proof.
  unfold BinaryTree.produced.
  by rewrite <- (Nat.add_0_r (S _)), for_loop_complete.
Qed.

Lemma run_tree (os : list BinaryTree.op) (h : BinaryTree.heap K) :
  BinaryTree.tree (BinaryTree.run os h) = BinaryTree.tree h.
Proof.
  revert h. induction os as [|o os IH]; intros h; [done|].
  cbn [BinaryTree.run foldl]. fold (BinaryTree.run os (BinaryTree.step o h)).
  rewrite IH. destruct o as [|g]; [done|].
  cbn [BinaryTree.step]. unfold BinaryTree.heap_next.
  destruct (BinaryTree.generators h !! g); [|done].
  by destruct (generator_next _).
Qed.

(** Walking one generator of the heap to its end, whatever the others
    are. *)
Lemma consume_heap_next fuel (h : BinaryTree.heap K) (a : nat) g :
  BinaryTree.generators h !! a = Some g →
  (length (pending g) < fuel)%nat →
  consume (BinaryTree.heap_next a) fuel h
  = (pending g, Exhausted,
     BinaryTree.Heap (BinaryTree.tree h)
       (<[a := Finished]> (BinaryTree.generators h))).
Proof.
  revert h g. induction fuel as [|fuel IH]; intros h g Hg Hlen; [lia|].
  cbn [consume]. unfold BinaryTree.heap_next at 1. rewrite Hg.
  pose proof (next_pending g) as H.
  destruct (generator_next g) as [[x|[]] g']; cbn in H; try done.
  - rewrite H in Hlen |- *. cbn [length] in Hlen.
    rewrite (IH _ g'); cbn [BinaryTree.generators BinaryTree.tree].
    + by rewrite list_insert_insert_eq.
    + apply list_lookup_insert_eq. by eapply lookup_lt_Some.
    + lia.
  - by destruct H as [-> ->].
Qed.
End TreeFacts.

(** C5: the tree adapter yields the values of the left subtree, then the
    node's own value, then the values of the right subtree, and nothing for
    [None]; a loop over it ends by exhaustion once the values are out; on
    the tree with root 1, left child 2 (children 4 and 5) and right child 3
    the values are 4, 2, 5, 1, 3. *)
Theorem C5_in_order_traversal :
  (∀ K (l r : node K) (v : K),
     BinaryTree.produced (BinaryTree.__init__ (TreeNode l v r))
     = BinaryTree.produced (BinaryTree.__init__ l)
       ++ v :: BinaryTree.produced (BinaryTree.__init__ r))
  ∧ (∀ K, BinaryTree.produced (BinaryTree.__init__ (@NoNode K)) = [])
  ∧ (∀ K (self : BinaryTree.t K) (extra : nat),
       BinaryTree.for_loop (S (node_count (BinaryTree.root self)) + extra) self
       = (BinaryTree.produced self, Exhausted, Finished))
  ∧ usage_tree
    = TreeNode (TreeNode (TreeNode NoNode 4 NoNode) 2 (TreeNode NoNode 5 NoNode))
        1 (TreeNode NoNode 3 NoNode)
  ∧ BinaryTree.produced (BinaryTree.__init__ usage_tree) = [4; 2; 5; 1; 3]
  ∧ fst (calls generator_next 6 (BinaryTree.__iter__ (BinaryTree.__init__ usage_tree)))
    = [Return 4; Return 2; Return 5; Return 1; Return 3; Raise StopIteration].
Proof.
  split_and!; [| |by intros; rewrite for_loop_complete, produced_walk|done..].
  - intros K l r v. by rewrite !produced_walk.
  - done.
Qed.

(** C8: iteration over a tree can be started again.  Whatever was done
    before with the tree (any number of [iter] calls, any [next] calls on
    the generators they made, run to the end or left half way), the tree
    object is as it was, a new [iter] makes a new generator object, and
    walking that one to its end gives the same values as a loop over the
    untouched tree: the sequence comes from the tree, none of it from the
    state of a generator made earlier. *)
Theorem C8_tree_iteration_restartable
    {K} (self : BinaryTree.t K) (ops : list BinaryTree.op) (extra : nat) :
  let h := BinaryTree.run ops (BinaryTree.Heap self []) in
  let fuel := (S (node_count (BinaryTree.root self)) + extra)%nat in
  let fresh := length (BinaryTree.generators h) in
  BinaryTree.tree h = self
  ∧ fst (BinaryTree.heap_iter h) = Return fresh
  ∧ BinaryTree.generators h !! fresh = None
  ∧ fst (consume (BinaryTree.heap_next fresh) fuel (snd (BinaryTree.heap_iter h)))
    = (BinaryTree.produced self, Exhausted)
  ∧ BinaryTree.for_loop fuel (BinaryTree.tree h)
    = (BinaryTree.produced self, Exhausted, Finished).
Proof.
  intros h fuel fresh.
  assert (BinaryTree.tree h = self) as Htree by apply run_tree.
  split_and!; [done|done|by apply lookup_ge_None_2| |].
  - unfold BinaryTree.heap_iter. cbn [snd].
    rewrite (consume_heap_next fuel _ fresh (BinaryTree.__iter__ self)).
    + cbn [fst]. by rewrite produced_walk.
    + cbn [BinaryTree.generators]. rewrite Htree.
      by apply list_lookup_middle.
    + cbn [BinaryTree.__iter__ BinaryTree.in_order_traversal pending].
      rewrite in_order_walk_length. unfold fuel. lia.
  - rewrite Htree. unfold fuel. by rewrite for_loop_complete, produced_walk.
Qed.

(** * Further properties *)

(** ** Cycle, from any state *)

Section CycleMore.
Context {A : Type}.
Implicit Types (C : list A) (s : Cycle.t A).

(** [getitem] at a position that [%] by the length produced. *)
Lemma getitem_mod C (i : Z) :
  C ≠ [] →
  ∃ x, C !! Z.to_nat (i `mod` len C) = Some x
       ∧ getitem C (i `mod` len C) = Return x.
Proof.
  intros HC. unfold len.
  assert (0 < Z.of_nat (length C)) as Hpos by (destruct C; [done|simpl; lia]).
  pose proof (Z.mod_pos_bound i _ Hpos) as Hr.
  destruct (lookup_lt_is_Some_2 C (Z.to_nat (i `mod` Z.of_nat (length C))))
    as [x Hx]; [lia|].
  exists x. split; [done|].
  rewrite <- (Z2Nat.id (i `mod` _)) by lia.
  by apply getitem_in_range.
Qed.

Lemma next_any_state s :
  Cycle.data s ≠ [] →
  ∃ x, Cycle.data s !! Z.to_nat (Cycle.index s `mod` len (Cycle.data s)) = Some x
       ∧ Cycle.__next__ s
         = (Return x, Cycle.mk (Cycle.data s) (Cycle.index s + 1)).
Proof.
  intros HC. destruct (getitem_mod (Cycle.data s) (Cycle.index s) HC)
    as (x & Hx & Hget).
  exists x. split; [done|].
  unfold Cycle.__next__, bind, get, lift, put, ret, py_mod.
  rewrite (truthy_nonempty _ HC). cbn [negb].
  destruct (decide (len (Cycle.data s) = 0)) as [Hz|_].
  { unfold len in Hz. destruct (Cycle.data s); [done|simpl in Hz; lia]. }
  by rewrite Hget.
Qed.

Lemma calls_empty n s :
  Cycle.data s = [] →
  calls Cycle.__next__ n s = (replicate n (Raise StopIteration), s).
Proof.
  intros Hs. induction n as [|n IH]; [done|].
  rewrite calls_unfold, (next_empty s Hs). cbn [fst snd]. by rewrite IH.
Qed.

Lemma calls_prefix C (n : nat) :
  (n ≤ length C)%nat →
  fst (calls Cycle.__next__ n (Cycle.__init__ C)) = Return <$> take n C.
Proof.
  destruct (decide (C = [])) as [->|HC].
  { intros Hn. simpl in Hn. by replace n with 0%nat by lia. }
  induction n as [|n IH]; intros Hn; [done|].
  rewrite calls_S. cbn [fst]. rewrite IH by lia.
  unfold nth_call. rewrite (calls_state C n HC).
  destruct (next_at C n HC) as (x & Hx & ->). cbn [fst].
  rewrite Nat.mod_small in Hx by lia.
  by rewrite (take_S_r _ _ _ Hx), fmap_app.
Qed.
End CycleMore.

(** X1: from any state of the object, whatever integer the cursor holds
    (a negative one too), [Cycle.__next__] either returns
    [data[index % len(data)]], an element of the list, and adds one to
    [index], or, on the empty list, raises [StopIteration] and changes
    nothing; it raises no other exception and never changes [data]. *)
Theorem X1_cycle_next_total {A} (s : Cycle.t A) :
  match Cycle.__next__ s with
  | (Return x, s') =>
      Cycle.data s ≠ []
      ∧ Cycle.data s !! Z.to_nat (Cycle.index s `mod` len (Cycle.data s))
        = Some x
      ∧ x ∈ Cycle.data s
      ∧ s' = Cycle.mk (Cycle.data s) (Cycle.index s + 1)
  | (Raise e, s') => e = StopIteration ∧ Cycle.data s = [] ∧ s' = s
  end.
Proof.
  destruct (decide (Cycle.data s = [])) as [Hs|Hs].
  - by rewrite (next_empty s Hs).
  - destruct (next_any_state s Hs) as (x & Hx & ->).
    split_and!; [done..| |done]. by eapply list_elem_of_lookup_2.
Qed.

(** X2: the first [len(data)] calls on a new [Cycle] return the elements of
    the list, each once and in the order of the list. *)
Theorem X2_cycle_first_period {A} (C : list A) :
  fst (calls Cycle.__next__ (length C) (Cycle.__init__ C)) = Return <$> C.
Proof. rewrite calls_prefix by done. by rewrite firstn_all. Qed.

(** X3: the answers of a [Cycle] repeat with period [len(data)]: the call
    number [n + k * len(data)] answers what the call number [n] did. *)
Theorem X3_cycle_periodic {A} (C : list A) (n k : nat) :
  nth_call Cycle.__next__ (n + k * length C) (Cycle.__init__ C)
  = nth_call Cycle.__next__ n (Cycle.__init__ C).
Proof.
  destruct (decide (C = [])) as [->|HC].
  - unfold nth_call. by rewrite !calls_empty.
  - unfold nth_call. rewrite !(calls_state C _ HC).
    destruct (next_at C (n + k * length C) HC) as (x & Hx & ->).
    destruct (next_at C n HC) as (y & Hy & ->). cbn [fst].
    rewrite Nat.Div0.mod_add in Hx. congruence.
Qed.

(** X4: a [Cycle] over the empty list stays exhausted: every call raises
    [StopIteration] and leaves the object as it was, and a [for] loop over
    it ends at once without a value. *)
Theorem X4_cycle_empty_stays_exhausted {A} (n fuel : nat) :
  let s := Cycle.__init__ (@nil A) in
  nth_call Cycle.__next__ n s = Raise StopIteration
  ∧ snd (calls Cycle.__next__ n s) = s
  ∧ consume Cycle.__next__ (S fuel) (snd (Cycle.__iter__ s))
    = ([], Exhausted, s).
Proof.
  intros s. unfold nth_call. by rewrite calls_empty.
Qed.

(** X5: a [for] loop over a [Cycle] on a non-empty list never ends by
    itself: however many rounds it is given, each one gets a value, the
    round number [k] gets [data[k % len(data)]], and the loop is still
    pending. *)
Theorem X5_cycle_loop_never_ends {A} (C : list A) (fuel : nat) :
  C ≠ [] →
  ∃ xs, consume Cycle.__next__ fuel (snd (Cycle.__iter__ (Cycle.__init__ C)))
        = (xs, Pending, Cycle.mk C (Z.of_nat fuel))
        ∧ length xs = fuel
        ∧ ∀ k x, xs !! k = Some x → C !! (k mod length C)%nat = Some x.
Proof.
  intros HC. cbn [Cycle.__iter__ get snd]. unfold Cycle.__init__.
  change 0 with (Z.of_nat 0).
  assert (∀ fuel start,
    ∃ xs, consume Cycle.__next__ fuel (Cycle.mk C (Z.of_nat start))
          = (xs, Pending, Cycle.mk C (Z.of_nat (start + fuel)))
          ∧ length xs = fuel
          ∧ ∀ k x, xs !! k = Some x
                   → C !! ((start + k) mod length C)%nat = Some x) as Hgen.
  { clear fuel. induction fuel as [|fuel IH]; intros start.
    - exists []. rewrite Nat.add_0_r. by split_and!.
    - destruct (next_at C start HC) as (x & Hx & Hnext).
      destruct (IH (S start)) as (xs & Hxs & Hlen & Hnth).
      exists (x :: xs). cbn [consume]. rewrite Hnext, Hxs.
      split_and!.
      + do 3 f_equal. lia.
      + simpl. by rewrite Hlen.
      + intros [|k] y Hk.
        * injection Hk as <-. by rewrite Nat.add_0_r.
        * rewrite <- Nat.add_succ_comm. by apply Hnth. }
  destruct (Hgen fuel 0%nat) as (xs & Hxs & Hlen & Hnth).
  exists xs. by split_and!.
Qed.

Lemma X5_cycle_loop_never_ends_witness :
  [1; 2; 3] ≠ [] ∧
  ∃ xs, consume Cycle.__next__ 7 (snd (Cycle.__iter__ (Cycle.__init__ [1; 2; 3])))
        = (xs, Pending, Cycle.mk [1; 2; 3] (Z.of_nat 7))
        ∧ length xs = 7%nat
        ∧ ∀ k x, xs !! k = Some x → [1; 2; 3] !! (k mod length [1; 2; 3])%nat = Some x.
Proof. split; [done | apply (X5_cycle_loop_never_ends [1; 2; 3] 7); done]. Defined.

(** ** InfiniteCounter in a loop *)

Lemma print_until_above_spec (limit : Z) (n extra : nat) (c : Z) :
  n = Z.to_nat (limit + 1 - c) →
  print_until_above limit (S n + extra) (InfiniteCounter.mk c)
  = (seqZ c (limit + 1 - c), Break,
     InfiniteCounter.mk (Z.max c (limit + 1) + 1)).
Proof.
  revert c. induction n as [|n IH]; intros c Hn.
  - cbn [print_until_above Nat.add]. rewrite counter_next.
    cbn [InfiniteCounter.current].
    destruct (decide (c > limit)) as [_|?]; [|lia].
    rewrite seqZ_nil by lia. do 2 f_equal. lia.
  - change (S (S n) + extra)%nat with (S (S n + extra)).
    cbn [print_until_above]. rewrite counter_next.
    cbn [InfiniteCounter.current].
    destruct (decide (c > limit)) as [?|_]; [lia|].
    rewrite (IH (c + 1)) by lia.
    rewrite (seqZ_cons c) by lia.
    replace (Z.succ c) with (c + 1) by lia.
    replace (Z.pred (limit + 1 - c)) with (limit + 1 - (c + 1)) by lia.
    by replace (Z.max (c + 1) (limit + 1)) with (Z.max c (limit + 1)) by lia.
Qed.

(** X6: a [for] loop over an [InfiniteCounter] never ends by itself:
    given [fuel] rounds it receives [current], [current + 1], ... one per
    round, and is still pending, the counter standing [fuel] higher. *)
Theorem X6_counter_loop_never_ends (s : InfiniteCounter.t) (fuel : nat) :
  consume InfiniteCounter.__next__ fuel (snd (InfiniteCounter.__iter__ s))
  = (seqZ (InfiniteCounter.current s) (Z.of_nat fuel), Pending,
     InfiniteCounter.mk (InfiniteCounter.current s + Z.of_nat fuel)).
Proof.
  cbn [InfiniteCounter.__iter__ get snd]. destruct s as [c].
  cbn [InfiniteCounter.current]. revert c.
  induction fuel as [|fuel IH]; intros c.
  - cbn [consume]. rewrite seqZ_nil by lia. do 2 f_equal. lia.
  - cbn [consume]. rewrite counter_next. cbn [InfiniteCounter.current].
    rewrite IH, (seqZ_cons c) by lia.
    replace (Z.succ c) with (c + 1) by lia.
    replace (Z.pred (Z.of_nat (S fuel))) with (Z.of_nat fuel) by lia.
    by replace (c + 1 + Z.of_nat fuel) with (c + Z.of_nat (S fuel)) by lia.
Qed.

(** X7: the usage loop of infinite_counter.py ends, by its [break]: started
    at [start] with the bound [limit], it prints [start], [start + 1], ...,
    [limit] (nothing when [start > limit]) and stops at the first number
    above [limit], which the counter has then passed by one.  With the
    numbers of the source, 10 and 20, it prints 10 to 20. *)
Theorem X7_counter_usage_breaks (start limit : Z) (extra : nat) :
  counter_usage start limit (S (Z.to_nat (limit + 1 - start)) + extra)
  = (seqZ start (limit + 1 - start), Break,
     InfiniteCounter.mk (Z.max start (limit + 1) + 1))
  ∧ fst (fst (counter_usage 10 20 12))
    = [10; 11; 12; 13; 14; 15; 16; 17; 18; 19; 20].
Proof.
  split; [|done]. unfold counter_usage.
  cbn [InfiniteCounter.__iter__ InfiniteCounter.__init__ get snd default].
  by apply print_until_above_spec.
Qed.

(** ** Lines of a text *)

Lemma rstrip_all_space (t : string) : all_space t = true → rstrip t = EmptyString.
Proof.
  induction t as [|c t IH]; [done|]. simpl.
  intros [Hc Ht]%andb_prop. by rewrite (IH Ht), Hc.
Qed.

Lemma rstrip_append_space (s t : string) :
  all_space t = true → rstrip (String.append s t) = rstrip s.
Proof.
  intros Ht. induction s as [|c s IH].
  - rewrite append_nil. by apply rstrip_all_space.
  - rewrite append_cons. simpl. by rewrite IH.
Qed.

Lemma lstrip_append (s t : string) :
  lstrip (String.append s t)
  = if all_space s then lstrip t else String.append (lstrip s) t.
Proof.
  induction s as [|c s IH]; [done|].
  rewrite append_cons. simpl. destruct (isspace c); [|done]. apply IH.
Qed.

(** Trailing white space, a newline for one, does not show after
    [strip]. *)
Lemma strip_append_space (s t : string) :
  all_space t = true → strip (String.append s t) = strip s.
Proof.
  intros Ht. unfold strip. rewrite lstrip_append.
  destruct (all_space s) eqn:Hs.
  - by rewrite (lstrip_all_space t Ht), (lstrip_all_space s Hs).
  - by apply rstrip_append_space.
Qed.

Lemma no_newline_cons c (l : string) :
  no_newline (String c l) = true → c ≠ LF ∧ c ≠ CR ∧ no_newline l = true.
Proof.
  simpl. intros [[H1 H2]%andb_prop H3]%andb_prop.
  apply negb_true_iff, bool_decide_eq_false in H1, H2. done.
Qed.

Lemma split_line_terminated (l t : string) :
  no_newline l = true →
  split_line (String.append l (String LF t))
  = (String.append l (String LF EmptyString), t).
Proof.
  induction l as [|c l IH]; [done|].
  intros (Hlf & _ & Hl)%no_newline_cons. rewrite !append_cons. simpl.
  destruct (decide (c = LF)); [done|]. by rewrite (IH Hl).
Qed.

Lemma split_line_last (l : string) :
  no_newline l = true → split_line l = (l, EmptyString).
Proof.
  induction l as [|c l IH]; [done|].
  intros (Hlf & _ & Hl)%no_newline_cons. simpl.
  destruct (decide (c = LF)); [done|]. by rewrite (IH Hl).
Qed.

Lemma universal_newlines_line (l t : string) :
  no_newline l = true →
  universal_newlines (String.append l (String LF t))
  = String.append l (String LF (universal_newlines t)).
Proof.
  induction l as [|c l IH].
  - intros _. by rewrite !append_nil.
  - intros (_ & Hcr & Hl)%no_newline_cons. rewrite !append_cons. simpl.
    destruct (decide (c = CR)); [done|]. by rewrite (IH Hl).
Qed.

Lemma universal_newlines_last (l : string) :
  no_newline l = true → universal_newlines l = l.
Proof.
  induction l as [|c l IH]; [done|].
  intros (_ & Hcr & Hl)%no_newline_cons. simpl.
  destruct (decide (c = CR)); [done|]. by rewrite (IH Hl).
Qed.

Lemma text_of_lines_cons fn (l : string) (ls : list string) :
  fn = true ∨ ls ≠ [] →
  text_of_lines fn (l :: ls)
  = String.append l (String LF (text_of_lines fn ls)).
Proof.
  intros H. destruct ls as [|l' ls]; [|done].
  destruct H as [->|?]; done.
Qed.

(** A text without carriage return is read as it is. *)
Lemma universal_newlines_text fn (ls : list string) :
  forallb no_newline ls = true →
  universal_newlines (text_of_lines fn ls) = text_of_lines fn ls.
Proof.
  induction ls as [|l ls IH]; [done|].
  intros [Hl Hls]%andb_prop.
  destruct (decide (fn = true ∨ ls ≠ [])) as [H|H].
  - rewrite (text_of_lines_cons _ _ _ H), universal_newlines_line by done.
    by rewrite IH.
  - assert (fn = false ∧ ls = []) as [-> ->].
    { destruct fn; [exfalso; apply H; by left|].
      destruct ls; [done|]. exfalso. apply H. by right. }
    by apply universal_newlines_last.
Qed.

Lemma lines_ok_cons fn (l : string) (ls : list string) :
  lines_ok fn (l :: ls) = true →
  no_newline l = true ∧ lines_ok fn ls = true
  ∧ (fn = true ∨ ls ≠ [] ∨ l ≠ EmptyString).
Proof.
  unfold lines_ok. cbn [forallb].
  intros [[Hl Hls]%andb_prop Hlast]%andb_prop.
  split_and!; [done| |].
  - rewrite Hls. cbn [andb]. destruct fn; [done|]. cbn [orb] in *.
    destruct ls as [|l' ls]; [done|]. by rewrite last_cons_cons in Hlast.
  - destruct fn; [by left|]. destruct ls; [|by right; left].
    right; right. intros ->. done.
Qed.

(** Reading the first line of a text: the text is not at its end, the line
    strips to what the first line strips to, the other lines remain. *)
Lemma first_line fn (l : string) (ls : list string) :
  lines_ok fn (l :: ls) = true →
  text_of_lines fn (l :: ls) ≠ EmptyString
  ∧ strip (fst (split_line (text_of_lines fn (l :: ls)))) = strip l
  ∧ snd (split_line (text_of_lines fn (l :: ls))) = text_of_lines fn ls.
Proof.
  intros (Hl & _ & Hcase)%lines_ok_cons.
  destruct (decide (fn = true ∨ ls ≠ [])) as [H|H].
  - rewrite (text_of_lines_cons _ _ _ H), split_line_terminated by done.
    cbn [fst snd]. split_and!; [by destruct l| |done].
    by apply strip_append_space.
  - assert (fn = false ∧ ls = []) as [-> ->].
    { destruct fn; [exfalso; apply H; by left|].
      destruct ls; [done|]. exfalso. apply H. by right. }
    cbn [text_of_lines]. rewrite split_line_last by done.
    split_and!; [|done..]. by destruct Hcase as [?|[?|?]].
Qed.

(** ** FileIterator in a loop *)

Section FileIteratorMore.
Import FileIterator.
Implicit Types (w : world) (self : t) (h : handle) (u : string).

Lemma count_events_step p w w' e :
  trace w' = trace w ++ [e] →
  count_events p w' = (count_events p w + if p e then 1 else 0)%nat.
Proof.
  intros H. unfold count_events. rewrite H, List.filter_app, length_app.
  cbn [List.filter]. by destruct (p e).
Qed.

(** [__next__] when [self.file] names no open file object. *)
Lemma next_refused w self h :
  file self = Some h →
  (∀ u, files w !! h ≠ Some (FileObj u false)) →
  __next__ (w, self)
  = (Raise ValueError,
     (World (fs w) (files w) (trace w ++ [EvReadline h]), self)).
Proof.
  intros Hf Hh. destruct (files w !! h) as [[u [|]]|] eqn:Hl.
  - by erewrite next_closed.
  - by destruct (Hh u).
  - unfold __next__, bind, get_file, in_world, readline. by rewrite Hf, Hl.
Qed.

(** [__iter__] on a file that exists. *)
Lemma iter_opens w self text :
  fs w !! filepath self = Some text →
  __iter__ (w, self)
  = (Return (mk (filepath self) (Some (length (files w)))),
     (World (fs w)
        (files w ++ [FileObj (universal_newlines text) false])
        (trace w ++ [EvOpen (filepath self) (length (files w))]),
      mk (filepath self) (Some (length (files w))))).
Proof.
  intros H. unfold __iter__, bind, self_, in_world, open, set_file.
  by rewrite H.
Qed.

(** What one [__next__] leaves alone: the object, the file system, the
    number of file objects and of [open] calls, and every file object but
    the one [self.file] names. *)
Lemma next_frame w self :
  let s' := snd (__next__ (w, self)) in
  snd s' = self
  ∧ fs (fst s') = fs w
  ∧ length (files (fst s')) = length (files w)
  ∧ open_attempts (fst s') = open_attempts w
  ∧ ∀ h', file self ≠ Some h' →
          files (fst s') !! h' = files w !! h'
          ∧ releases h' (fst s') = releases h' w.
Proof.
  destruct (file self) as [h|] eqn:Hf.
  2:{ rewrite next_unset by done. cbn. by split_and!. }
  assert (∀ h', Some h ≠ Some h' → h ≠ h') as Hne by congruence.
  destruct (files w !! h) as [[u [|]]|] eqn:Hh.
  - rewrite (next_closed w self h u) by done. cbn [fst snd fs files].
    unfold open_attempts, releases.
    split_and!; [done..| |].
    + by rewrite (count_events_step _ w _ (EvReadline h)), Nat.add_0_r.
    + intros h' _. split; [done|].
      by rewrite (count_events_step _ w _ (EvReadline h)), Nat.add_0_r.
  - destruct (decide (u = EmptyString)) as [->|Hu].
    + rewrite (next_eof w self h) by done. cbn [fst snd fs files].
      unfold open_attempts, releases.
      split_and!; [done..|by rewrite length_insert| |].
      * rewrite (count_events_step _
                   (World (fs w) (files w) (trace w ++ [EvReadline h])) _
                   (EvClose h)) by done.
        by rewrite (count_events_step _ w _ (EvReadline h)), !Nat.add_0_r.
      * intros h' Hh'%Hne. split.
        -- by rewrite list_lookup_insert_ne.
        -- rewrite (count_events_step _
                      (World (fs w) (files w) (trace w ++ [EvReadline h])) _
                      (EvClose h)) by done.
           rewrite (count_events_step _ w _ (EvReadline h)) by done.
           rewrite bool_decide_eq_false_2 by congruence.
           rewrite bool_decide_eq_false_2 by congruence. lia.
    + rewrite (next_line w self h u) by done. cbn [fst snd fs files].
      unfold open_attempts, releases.
      split_and!; [done..|by rewrite length_insert| |].
      * by rewrite (count_events_step _ w _ (EvReadline h)), Nat.add_0_r.
      * intros h' Hh'%Hne. split.
        -- by rewrite list_lookup_insert_ne.
        -- by rewrite (count_events_step _ w _ (EvReadline h)), Nat.add_0_r.
  - rewrite (next_refused w self h) by (done || by rewrite Hh).
    cbn [fst snd fs files]. unfold open_attempts, releases.
    split_and!; [done..| |].
    + by rewrite (count_events_step _ w _ (EvReadline h)), Nat.add_0_r.
    + intros h' _. split; [done|].
      by rewrite (count_events_step _ w _ (EvReadline h)), Nat.add_0_r.
Qed.
End FileIteratorMore.

Section FileIteratorLoops.
Import FileIterator.
Implicit Types (w : world) (self : t) (h : handle) (ls : list string).

Lemma calls_frame n w self :
  let s' := snd (calls __next__ n (w, self)) in
  snd s' = self
  ∧ fs (fst s') = fs w
  ∧ length (files (fst s')) = length (files w)
  ∧ open_attempts (fst s') = open_attempts w
  ∧ ∀ h', file self ≠ Some h' →
          files (fst s') !! h' = files w !! h'
          ∧ releases h' (fst s') = releases h' w.
Proof.
  induction n as [|n IH]; [by cbn; split_and!|].
  rewrite calls_S. cbn [snd].
  destruct (snd (calls __next__ n (w, self))) as [w1 self1].
  cbn [fst snd] in IH. destruct IH as (-> & Hfs & Hlen & Hop & Hother).
  destruct (next_frame w1 self) as (Hs & Hfs' & Hlen' & Hop' & Hother').
  cbn zeta in *. split_and!; [congruence..|].
  intros h' Hh'. destruct (Hother h' Hh') as [<- <-]. by apply Hother'.
Qed.

(** A loop that is given rounds enough reads every line, then closes. *)
Lemma consume_all_lines fn ls : ∀ fuel w self h,
  file self = Some h →
  files w !! h = Some (FileObj (text_of_lines fn ls) false) →
  lines_ok fn ls = true →
  (length ls < fuel)%nat →
  ∃ w', consume __next__ fuel (w, self) = (strip <$> ls, Exhausted, (w', self))
        ∧ fs w' = fs w
        ∧ files w' = <[h := FileObj EmptyString true]> (files w)
        ∧ closes w' = S (closes w)
        ∧ acquisitions w' = acquisitions w.
Proof.
  induction ls as [|l ls IH]; intros fuel w self h Hf Hh Hok Hfuel.
  - destruct fuel as [|fuel]; [simpl in Hfuel; lia|].
    cbn [consume]. rewrite (next_eof w self h Hf Hh).
    eexists. split; [done|]. cbn [fs files]. unfold closes, acquisitions.
    split_and!; [done..| |].
    + rewrite (count_events_step _
                 (World (fs w) (files w) (trace w ++ [EvReadline h])) _
                 (EvClose h)) by done.
      rewrite (count_events_step _ w _ (EvReadline h)) by done. lia.
    + rewrite (count_events_step _
                 (World (fs w) (files w) (trace w ++ [EvReadline h])) _
                 (EvClose h)) by done.
      rewrite (count_events_step _ w _ (EvReadline h)) by done. lia.
  - destruct fuel as [|fuel]; [simpl in Hfuel; lia|].
    destruct (first_line fn l ls Hok) as (Hne & Hstrip & Hrest).
    destruct (lines_ok_cons fn l ls Hok) as (_ & Hok' & _).
    cbn [consume]. rewrite (next_line w self h _ Hf Hh Hne), Hstrip, Hrest.
    edestruct (IH fuel) as (w' & -> & Hfs & Hfiles & Hcl & Hacq);
      [exact Hf| |exact Hok'| |].
    { cbn [files]. apply list_lookup_insert_eq. by eapply lookup_lt_Some. }
    { simpl in Hfuel. lia. }
    exists w'. cbn [fs files] in *. split_and!; [done..| | |].
    + by rewrite Hfiles, list_insert_insert_eq.
    + rewrite Hcl. unfold closes.
      by rewrite (count_events_step _ w _ (EvReadline h)), Nat.add_0_r.
    + rewrite Hacq. unfold acquisitions.
      by rewrite (count_events_step _ w _ (EvReadline h)), Nat.add_0_r.
Qed.

(** A loop that stops earlier has read so many lines and closed nothing. *)
Lemma consume_some_lines fn : ∀ fuel ls w self h,
  file self = Some h →
  files w !! h = Some (FileObj (text_of_lines fn ls) false) →
  lines_ok fn ls = true →
  (fuel ≤ length ls)%nat →
  ∃ w', consume __next__ fuel (w, self)
        = (strip <$> take fuel ls, Pending, (w', self))
        ∧ fs w' = fs w
        ∧ files w'
          = <[h := FileObj (text_of_lines fn (drop fuel ls)) false]> (files w)
        ∧ closes w' = closes w
        ∧ acquisitions w' = acquisitions w.
Proof.
  induction fuel as [|fuel IH]; intros ls w self h Hf Hh Hok Hfuel.
  - exists w. cbn [consume take drop]. split_and!; [done..| |done|done].
    by rewrite list_insert_id.
  - destruct ls as [|l ls]; [simpl in Hfuel; lia|].
    destruct (first_line fn l ls Hok) as (Hne & Hstrip & Hrest).
    destruct (lines_ok_cons fn l ls Hok) as (_ & Hok' & _).
    cbn [consume]. rewrite (next_line w self h _ Hf Hh Hne), Hstrip, Hrest.
    edestruct (IH ls) as (w' & -> & Hfs & Hfiles & Hcl & Hacq);
      [exact Hf| |exact Hok'| |].
    { cbn [files]. apply list_lookup_insert_eq. by eapply lookup_lt_Some. }
    { simpl in Hfuel. lia. }
    exists w'. cbn [fs files take drop fmap list_fmap] in *.
    split_and!; [done..| | |].
    + by rewrite Hfiles, list_insert_insert_eq.
    + rewrite Hcl. unfold closes.
      by rewrite (count_events_step _ w _ (EvReadline h)), Nat.add_0_r.
    + rewrite Hacq. unfold acquisitions.
      by rewrite (count_events_step _ w _ (EvReadline h)), Nat.add_0_r.
Qed.
End FileIteratorLoops.

(** The whole loop over a file of well-formed lines. *)
Lemma for_loop_all_lines
    (w : world) (self : FileIterator.t) (final_newline : bool)
    (ls : list string) (fuel : nat) :
  fs w !! FileIterator.filepath self = Some (text_of_lines final_newline ls) →
  lines_ok final_newline ls = true →
  (length ls < fuel)%nat →
  ∃ w',
    FileIterator.for_loop fuel (w, self)
    = (strip <$> ls, Exhausted,
       (w', FileIterator.mk (FileIterator.filepath self)
              (Some (length (files w)))))
    ∧ fs w' = fs w
    ∧ files w' = files w ++ [FileObj EmptyString true]
    ∧ closes w' = S (closes w)
    ∧ acquisitions w' = S (acquisitions w).
Proof.
  intros Hfile Hok Hfuel. unfold FileIterator.for_loop.
  rewrite (iter_opens w self _ Hfile).
  assert (forallb no_newline ls = true) as Hnl.
  { unfold lines_ok in Hok. by apply andb_prop in Hok as [? _]. }
  rewrite (universal_newlines_text _ _ Hnl).
  edestruct (consume_all_lines final_newline ls fuel)
    as (w' & -> & Hfs & Hfiles & Hcl & Hacq); [| |exact Hok|exact Hfuel|].
  { done. }
  { cbn [files]. by apply list_lookup_middle. }
  exists w'. cbn [fs files] in *. split_and!; [done..| | |].
  - rewrite Hfiles, insert_app_r_alt by done. by rewrite Nat.sub_diag.
  - rewrite Hcl. unfold closes.
    by rewrite (count_events_step _ w _ (EvOpen (FileIterator.filepath self)
                                          (length (files w)))), Nat.add_0_r.
  - rewrite Hacq. unfold acquisitions.
    rewrite (count_events_step _ w _ (EvOpen (FileIterator.filepath self)
                                       (length (files w)))) by done.
    lia.
Qed.

(** X8: a [for] loop over a [FileIterator] whose file holds the lines [ls]
    (with or without a final newline), given rounds enough, receives every
    line stripped, in the order of the file, and ends by exhaustion; one
    file object was opened for it and that one is closed, by one [close];
    the file system is as before. *)
Theorem X8_file_loop_yields_all_lines
    (w : world) (self : FileIterator.t) (final_newline : bool)
    (ls : list string) (fuel : nat) :
  fs w !! FileIterator.filepath self = Some (text_of_lines final_newline ls) →
  lines_ok final_newline ls = true →
  (length ls < fuel)%nat →
  ∃ w',
    FileIterator.for_loop fuel (w, self)
    = (strip <$> ls, Exhausted,
       (w', FileIterator.mk (FileIterator.filepath self)
              (Some (length (files w)))))
    ∧ fs w' = fs w
    ∧ files w' = files w ++ [FileObj EmptyString true]
    ∧ closes w' = S (closes w)
    ∧ acquisitions w' = S (acquisitions w).
Proof. apply for_loop_all_lines. Qed.

Lemma X8_file_loop_yields_all_lines_witness :
  let ls := ["a"; " b "; ""; "c"]%string in
  let w := boot {[ "example.txt"%string := text_of_lines false ls ]} in
  let self := FileIterator.__init__ "example.txt" in
  (fs w !! FileIterator.filepath self = Some (text_of_lines false ls)
   ∧ lines_ok false ls = true ∧ (length ls < 5)%nat)
  ∧ ∃ w',
      FileIterator.for_loop 5 (w, self)
      = (strip <$> ls, Exhausted,
         (w', FileIterator.mk (FileIterator.filepath self)
                (Some (length (files w)))))
      ∧ fs w' = fs w
      ∧ files w' = files w ++ [FileObj EmptyString true]
      ∧ closes w' = S (closes w)
      ∧ acquisitions w' = S (acquisitions w).
Proof.
  split; [split_and!; [reflexivity|reflexivity|simpl; lia]|].
  apply (X8_file_loop_yields_all_lines
           (boot {[ "example.txt"%string
                    := text_of_lines false ["a"; " b "; ""; "c"]%string ]})
           (FileIterator.__init__ "example.txt") false
           ["a"; " b "; ""; "c"]%string 5);
    [reflexivity|reflexivity|simpl; lia].
Defined.

(** X9: a loop that is left before the lines are out (after [fuel] rounds,
    [fuel] at most the number of lines) has received the first [fuel] lines
    stripped, and the file is still open: no [close] was made, and the
    file object holds the lines not read. *)
Theorem X9_file_loop_left_early_keeps_file_open
    (w : world) (self : FileIterator.t) (final_newline : bool)
    (ls : list string) (fuel : nat) :
  fs w !! FileIterator.filepath self = Some (text_of_lines final_newline ls) →
  lines_ok final_newline ls = true →
  (fuel ≤ length ls)%nat →
  ∃ w',
    FileIterator.for_loop fuel (w, self)
    = (strip <$> take fuel ls, Pending,
       (w', FileIterator.mk (FileIterator.filepath self)
              (Some (length (files w)))))
    ∧ files w'
      = files w ++ [FileObj (text_of_lines final_newline (drop fuel ls)) false]
    ∧ closes w' = closes w
    ∧ acquisitions w' = S (acquisitions w).
Proof.
  intros Hfile Hok Hfuel. unfold FileIterator.for_loop.
  rewrite (iter_opens w self _ Hfile).
  assert (forallb no_newline ls = true) as Hnl.
  { unfold lines_ok in Hok. by apply andb_prop in Hok as [? _]. }
  rewrite (universal_newlines_text _ _ Hnl).
  edestruct (consume_some_lines final_newline fuel ls)
    as (w' & -> & Hfs & Hfiles & Hcl & Hacq); [| |exact Hok|exact Hfuel|].
  { done. }
  { cbn [files]. by apply list_lookup_middle. }
  exists w'. cbn [fs files] in *. split_and!; [done| | |].
  - rewrite Hfiles, insert_app_r_alt by done. by rewrite Nat.sub_diag.
  - rewrite Hcl. unfold closes.
    by rewrite (count_events_step _ w _ (EvOpen (FileIterator.filepath self)
                                          (length (files w)))), Nat.add_0_r.
  - rewrite Hacq. unfold acquisitions.
    rewrite (count_events_step _ w _ (EvOpen (FileIterator.filepath self)
                                       (length (files w)))) by done.
    lia.
Qed.

Lemma X9_file_loop_left_early_keeps_file_open_witness :
  let ls := ["a"; "b"; "c"]%string in
  let w := boot {[ "example.txt"%string := text_of_lines true ls ]} in
  let self := FileIterator.__init__ "example.txt" in
  (fs w !! FileIterator.filepath self = Some (text_of_lines true ls)
   ∧ lines_ok true ls = true ∧ (2 ≤ length ls)%nat)
  ∧ ∃ w',
      FileIterator.for_loop 2 (w, self)
      = (strip <$> take 2 ls, Pending,
         (w', FileIterator.mk (FileIterator.filepath self)
                (Some (length (files w)))))
      ∧ files w'
        = files w ++ [FileObj (text_of_lines true (drop 2 ls)) false]
      ∧ closes w' = closes w
      ∧ acquisitions w' = S (acquisitions w).
Proof.
  split; [split_and!; [reflexivity|reflexivity|simpl; lia]|].
  apply (X9_file_loop_left_early_keeps_file_open
           (boot {[ "example.txt"%string
                    := text_of_lines true ["a"; "b"; "c"]%string ]})
           (FileIterator.__init__ "example.txt") true
           ["a"; "b"; "c"]%string 2);
    [reflexivity|reflexivity|simpl; lia].
Defined.

(** X10: a [FileIterator] can be looped over again: a second [for] loop on
    the object, after a first one ran to the end, opens the file anew and
    receives the same lines; by then two file objects were opened and both
    are closed. *)
Theorem X10_file_second_loop_rereads
    (w : world) (self : FileIterator.t) (final_newline : bool)
    (ls : list string) (fuel : nat) :
  fs w !! FileIterator.filepath self = Some (text_of_lines final_newline ls) →
  lines_ok final_newline ls = true →
  (length ls < fuel)%nat →
  let first := FileIterator.for_loop fuel (w, self) in
  let second := FileIterator.for_loop fuel (snd first) in
  fst first = (strip <$> ls, Exhausted)
  ∧ fst second = (strip <$> ls, Exhausted)
  ∧ files (fst (snd second))
    = files w ++ [FileObj EmptyString true; FileObj EmptyString true]
  ∧ FileIterator.file (snd (snd second)) = Some (S (length (files w)))
  ∧ acquisitions (fst (snd second)) = S (S (acquisitions w))
  ∧ closes (fst (snd second)) = S (S (closes w)).
Proof.
  intros Hfile Hok Hfuel first second. subst second first.
  destruct (for_loop_all_lines w self final_newline ls fuel)
    as (w1 & -> & Hfs1 & Hfiles1 & Hcl1 & Hacq1); [done..|].
  cbn [fst snd].
  destruct (for_loop_all_lines w1
              (FileIterator.mk (FileIterator.filepath self)
                 (Some (length (files w)))) final_newline ls fuel)
    as (w2 & -> & Hfs2 & Hfiles2 & Hcl2 & Hacq2);
    [by rewrite Hfs1|done..|].
  cbn [fst snd FileIterator.file FileIterator.filepath].
  split_and!; [done|done| | |congruence|congruence].
  - by rewrite Hfiles2, Hfiles1, <- app_assoc.
  - by rewrite Hfiles1, length_app, Nat.add_1_r.
Qed.

Lemma X10_file_second_loop_rereads_witness :
  let ls := ["a"; "b"]%string in
  let w := boot {[ "example.txt"%string := text_of_lines true ls ]} in
  let self := FileIterator.__init__ "example.txt" in
  (fs w !! FileIterator.filepath self = Some (text_of_lines true ls)
   ∧ lines_ok true ls = true ∧ (length ls < 3)%nat)
  ∧ fst (FileIterator.for_loop 3 (snd (FileIterator.for_loop 3 (w, self))))
    = (strip <$> ls, Exhausted).
Proof.
  split; [split_and!; [reflexivity|reflexivity|simpl; lia]|].
  apply (X10_file_second_loop_rereads
           (boot {[ "example.txt"%string
                    := text_of_lines true ["a"; "b"]%string ]})
           (FileIterator.__init__ "example.txt") true
           ["a"; "b"]%string 3);
    [reflexivity|reflexivity|simpl; lia].
Defined.

(** X11: [__next__] touches nothing but the file object [self.file] names:
    over any number of calls, from any state, the object itself, the file
    system, the number of file objects and of [open] calls stay as they
    were, and so does every other file object, which is not closed
    either. *)
Theorem X11_file_next_touches_only_its_file
    (w : world) (self : FileIterator.t) (n : nat) :
  let s' := snd (calls FileIterator.__next__ n (w, self)) in
  snd s' = self
  ∧ fs (fst s') = fs w
  ∧ length (files (fst s')) = length (files w)
  ∧ open_attempts (fst s') = open_attempts w
  ∧ ∀ h', FileIterator.file self ≠ Some h' →
          files (fst s') !! h' = files w !! h'
          ∧ releases h' (fst s') = releases h' w.
Proof. apply calls_frame. Qed.

Lemma X11_file_next_touches_only_its_file_witness :
  let w := World ∅ [FileObj "x" false; FileObj "y" false] [] in
  let self := FileIterator.mk "example.txt" (Some 1%nat) in
  FileIterator.file self ≠ Some 0%nat
  ∧ files (fst (snd (calls FileIterator.__next__ 3 (w, self)))) !! 0%nat
    = files w !! 0%nat.
Proof.
  split; [done|].
  refine (proj1 (proj2 (proj2 (proj2 (proj2
            (X11_file_next_touches_only_its_file
               (World ∅ [FileObj "x" false; FileObj "y" false] [])
               (FileIterator.mk "example.txt" (Some 1%nat)) 3))))
            0%nat _)).
  done.
Defined.




(** ** Generators of the tree, call by call *)

Lemma nth_call_shift {S A} (next : Py S A) n s :
  nth_call next (Datatypes.S n) s = nth_call next n (snd (next s)).
Proof. unfold nth_call. by rewrite calls_unfold. Qed.

Section GeneratorCalls.
Context {K : Type}.
Implicit Types (g : generator K) (self : BinaryTree.t K).

(** The call number [n] on a generator returns the value number [n] of
    those it still has, or finds none left. *)
Lemma nth_call_generator n g :
  nth_call generator_next n g
  = from_option Return (Raise StopIteration) (pending g !! n).
Proof.
  revert g. induction n as [|n IH]; intros g.
  - unfold nth_call. cbn [calls snd].
    pose proof (next_pending g) as H.
    destruct (generator_next g) as [[x|[]] g']; cbn in H; try done.
    + by rewrite H.
    + by destruct H as [-> _].
  - rewrite nth_call_shift, IH.
    pose proof (next_pending g) as H.
    destruct (generator_next g) as [[x|[]] g']; cbn in H; try done.
    + by rewrite H.
    + by destruct H as [-> ->].
Qed.

End GeneratorCalls.

(** X14: a generator of the tree hands out the in-order values one per
    call: the call number [n] (from 0) on a new iterator returns the value
    number [n] of the sequence, and raises [StopIteration] when there is
    none, which is from the call number [node count] on, the sequence
    having one value per node. *)
Theorem X14_generator_one_value_per_call
    {K} (self : BinaryTree.t K) (n : nat) :
  nth_call generator_next n (BinaryTree.__iter__ self)
  = match BinaryTree.produced self !! n with
    | Some x => Return x
    | None => Raise StopIteration
    end
  ∧ length (BinaryTree.produced self) = node_count (BinaryTree.root self)
  ∧ nth_call generator_next (node_count (BinaryTree.root self) + n)
      (BinaryTree.__iter__ self)
    = Raise StopIteration.
Proof.
  rewrite !nth_call_generator, produced_walk.
  cbn [BinaryTree.__iter__ BinaryTree.in_order_traversal pending].
  split_and!.
  - by destruct (in_order_walk _ !! n).
  - apply in_order_walk_length.
  - rewrite lookup_ge_None_2; [done|]. rewrite in_order_walk_length. lia.
Qed.





(** ** No newline in what [__next__] returns *)

Lemma has_LF_cons c (s : string) :
  has_LF (String c s) = false → c ≠ LF ∧ has_LF s = false.
Proof.
  simpl. intros [H1 H2]%orb_false_elim.
  by apply bool_decide_eq_false in H1.
Qed.

Lemma has_LF_cons_false c (s : string) :
  c ≠ LF → has_LF s = false → has_LF (String c s) = false.
Proof. intros Hc Hs. simpl. by rewrite Hs, bool_decide_eq_false_2. Qed.

Lemma lstrip_no_LF (s : string) : has_LF s = false → has_LF (lstrip s) = false.
Proof.
  induction s as [|c s IH]; [done|].
  intros H. destruct (has_LF_cons c s H) as [_ Hs]. cbn [lstrip].
  destruct (isspace c); [by apply IH|done].
Qed.

Lemma rstrip_no_LF (s : string) : has_LF s = false → has_LF (rstrip s) = false.
Proof.
  induction s as [|c s IH]; [done|].
  intros [Hc Hs]%has_LF_cons. cbn [rstrip]. specialize (IH Hs).
  destruct (rstrip s) as [|d r].
  - destruct (isspace c); [done|]. by apply has_LF_cons_false.
  - by apply has_LF_cons_false.
Qed.

(** A line as [readline] gives it: a text without newline, followed by one
    newline or, at the end of the file, by nothing. *)
Lemma split_line_shape (u : string) :
  ∃ body, has_LF body = false
          ∧ (fst (split_line u) = body
             ∨ fst (split_line u) = String.append body (String LF EmptyString)).
Proof.
  induction u as [|c u (body & Hbody & Hline)].
  - exists EmptyString. split; [done|by left].
  - cbn [split_line]. destruct (decide (c = LF)) as [->|Hc].
    + exists EmptyString. split; [done|by right].
    + destruct (split_line u) as [l r]. cbn [fst] in *.
      exists (String c body). split; [by apply has_LF_cons_false|].
      destruct Hline as [->| ->]; [by left|by right].
Qed.

(** X17: no value returned by [FileIterator.__next__] holds a newline
    character: a line ends at the first newline, and that one is
    stripped. *)
Theorem X17_file_next_value_has_no_newline
    (w : world) (self : FileIterator.t) :
  match fst (FileIterator.__next__ (w, self)) with
  | Return x => has_LF x = false
  | Raise _ => True
  end.
Proof.
  destruct (FileIterator.file self) as [h|] eqn:Hf;
    [|by rewrite next_unset].
  destruct (files w !! h) as [[u [|]]|] eqn:Hh.
  - by erewrite next_closed.
  - destruct (decide (u = EmptyString)) as [->|Hu]; [by erewrite next_eof|].
    rewrite (next_line w self h u) by done. cbn [fst].
    destruct (split_line_shape u) as (body & Hbody & [-> | ->]).
    + by apply rstrip_no_LF, lstrip_no_LF.
    + rewrite strip_append_space by done.
      by apply rstrip_no_LF, lstrip_no_LF.
  - rewrite (next_refused w self h); [done..|]. intros u. by rewrite Hh.
Qed.
